(** * Pomodoro CLI timer: a shallow embedding of [pomodoro.py]

    The development follows the layout of the program:

    - [Py]       the Python objects the program manipulates (the JSON-shaped
                 fragment: [None], booleans, integers, strings, lists and
                 string-keyed dictionaries) with the dynamic operations the
                 source applies to them;
    - [Json]     the text format of the data file, as written by
                 [json.dump(..., indent=2)] and read back by [json.load];
    - [World]    the environment of one process: standard input, the printed
                 trace, the data file, the clocks;
    - [Pomodoro] the class [PomodoroTimer] and [main], method by method;
    - [Log]      typed session records, used to state the properties;
    - [Sample]   a few environments and records for the examples.

    The properties follow the definitions, in the same order: the text of
    the data file, the views, one session, persistence. *)

From Stdlib Require Import ZArith List String Ascii Bool Lia QArith.
From Stdlib Require Import Decimal DecimalString DecimalZ DecimalPos.
From Stdlib Require Import Sorted Permutation.
Import ListNotations.

#[local] Open Scope string_scope.
#[local] Open Scope list_scope.
#[local] Open Scope Z_scope.

(* ================================================================== *)
(** * Python objects *)
(* ================================================================== *)

Module Py.

(** The objects that can live in [self.sessions]: whatever [json.load]
    returns, and the dictionaries [start_session] builds.  Dictionaries keep
    insertion order and have string keys. *)
#[local] Unset Elimination Schemes.
Inductive value : Type :=
| VNone
| VBool (b : bool)
| VInt (n : Z)
| VStr (s : string)
| VList (l : list value)
| VDict (d : list (string * value)).
#[local] Set Elimination Schemes.

(** The exceptions the modelled code can raise. *)
Inductive exn : Type :=
| TypeError
| KeyError
| AttributeError
| ZeroDivisionError
| ValueError
| EOFError
| OSError.

Inductive result (A : Type) : Type :=
| Ok (a : A)
| Raise (e : exn).
Arguments Ok {A} a.
Arguments Raise {A} e.

Definition rbind {A B} (r : result A) (k : A -> result B) : result B :=
  match r with
  | Ok a => k a
  | Raise e => Raise e
  end.

(** [bool(v)] *)
Definition truthy (v : value) : bool :=
  match v with
  | VNone => false
  | VBool b => b
  | VInt n => negb (n =? 0)
  | VStr s => negb (s =? "")%string
  | VList l => match l with [] => false | _ => true end
  | VDict d => match d with [] => false | _ => true end
  end.

(** [bool] is a subclass of [int]. *)
Definition as_int (v : value) : option Z :=
  match v with
  | VInt n => Some n
  | VBool b => Some (if b then 1 else 0)
  | _ => None
  end.

Fixpoint chars (s : string) : list value :=
  match s with
  | EmptyString => []
  | String c r => VStr (String c EmptyString) :: chars r
  end.

(** [iter(v)]: the elements a [for] loop or a comprehension visits. *)
Definition iterate (v : value) : result (list value) :=
  match v with
  | VList l => Ok l
  | VDict d => Ok (map (fun kv => VStr (fst kv)) d)
  | VStr s => Ok (chars s)
  | _ => Raise TypeError
  end.

Fixpoint dict_get (d : list (string * value)) (k : string) : option value :=
  match d with
  | [] => None
  | (k', v) :: r => if (k' =? k)%string then Some v else dict_get r k
  end.

(** [d[k] = v]: an existing key keeps its position. *)
Fixpoint dict_set (d : list (string * value)) (k : string) (v : value)
  : list (string * value) :=
  match d with
  | [] => [(k, v)]
  | (k', v') :: r =>
      if (k' =? k)%string then (k', v) :: r else (k', v') :: dict_set r k v
  end.

(** [v[k]] for a string [k]. *)
Definition getitem (v : value) (k : string) : result value :=
  match v with
  | VDict d => match dict_get d k with
               | Some x => Ok x
               | None => Raise KeyError
               end
  | _ => Raise TypeError
  end.

(** [v == s] for a string [s]. *)
Definition eq_str (v : value) (s : string) : bool :=
  match v with
  | VStr s' => (s' =? s)%string
  | _ => false
  end.

(** [acc + v] with an integer [acc], as [sum] computes it. *)
Definition add_int (acc : Z) (v : value) : result Z :=
  match as_int v with
  | Some n => Ok (acc + n)
  | None => Raise TypeError
  end.

(** [len(v)] *)
Definition len (v : value) : result Z :=
  match v with
  | VList l => Ok (Z.of_nat (List.length l))
  | VDict d => Ok (Z.of_nat (List.length d))
  | VStr s => Ok (Z.of_nat (String.length s))
  | _ => Raise TypeError
  end.

(** [l[start:]] on a list of length [n]: a negative [start] counts from the
    end, and the bounds are clamped to [0..n]. *)
Definition slice_from {A} (start : Z) (l : list A) : list A :=
  let n := Z.of_nat (List.length l) in
  let i := if start <? 0 then Z.max (start + n) 0 else Z.min start n in
  skipn (Z.to_nat i) l.

(** Hashable objects, as keys of a local dictionary. *)
Definition hashable (v : value) : bool :=
  match v with
  | VList _ | VDict _ => false
  | _ => true
  end.

(** Equality of two hashable keys: [True == 1] and [False == 0]. *)
Definition key_eqb (a b : value) : bool :=
  match a, b with
  | VNone, VNone => true
  | VStr s, VStr t => (s =? t)%string
  | _, _ => match as_int a, as_int b with
            | Some m, Some n => m =? n
            | _, _ => false
            end
  end.

(** [a < b]: strings compare by code point, integers by value; other pairs
    are not ordered. *)
Definition less (a b : value) : result bool :=
  match a, b with
  | VStr s, VStr t => Ok (String.ltb s t)
  | _, _ => match as_int a, as_int b with
            | Some m, Some n => Ok (m <? n)
            | _, _ => Raise TypeError
            end
  end.

(** [sorted(l)]: a stable sort; [x], which came first, moves right only past
    elements strictly smaller than it. *)
Fixpoint insert_sorted (x : value) (l : list value) : result (list value) :=
  match l with
  | [] => Ok [x]
  | y :: r =>
      rbind (less y x) (fun b =>
        if b then rbind (insert_sorted x r) (fun r' => Ok (y :: r'))
        else Ok (x :: y :: r))
  end.

Fixpoint sorted_of (l : list value) : result (list value) :=
  match l with
  | [] => Ok []
  | x :: r => rbind (sorted_of r) (fun r' => insert_sorted x r')
  end.

(** [s.lower()] below code point 256: the ASCII capitals, and the Latin-1
    capitals other than the multiplication sign. *)
Definition lower_char (c : ascii) : ascii :=
  let n := nat_of_ascii c in
  if andb (65 <=? n)%nat (n <=? 90)%nat then ascii_of_nat (n + 32)
  else if andb (andb (192 <=? n)%nat (n <=? 222)%nat) (negb (n =? 215)%nat)
  then ascii_of_nat (n + 32)
  else c.

Fixpoint lower (s : string) : string :=
  match s with
  | EmptyString => EmptyString
  | String c r => String (lower_char c) (lower r)
  end.

End Py.

(* ================================================================== *)
(** * The JSON text of the data file *)
(* ================================================================== *)

(** [json.dump] and [json.load] belong to Python's standard library.  They are
    modelled on the fragment of JSON the program writes: [null], booleans,
    integers, strings, arrays and objects.  Characters are code points below
    256.  A number with a fraction or an exponent, [NaN], [Infinity] and a
    [\u] escape above 00ff are outside the fragment and rejected. *)

Module Json.
Import Py.

Definition dquote : ascii := ascii_of_nat 34.
Definition newline : ascii := ascii_of_nat 10.

(** ** Writing: [json.dump(v, f, indent=2)] *)

Definition hex_digit (n : nat) : ascii :=
  nth n ["0"; "1"; "2"; "3"; "4"; "5"; "6"; "7"; "8"; "9";
         "a"; "b"; "c"; "d"; "e"; "f"]%char "0"%char.

(** [ensure_ascii] is on: everything outside [' '..'~'], the quote and the
    backslash are escaped. *)
Definition escape_char (c : ascii) : string :=
  let n := nat_of_ascii c in
  if (n =? 34)%nat then String "\" (String dquote EmptyString)
  else if (n =? 92)%nat then "\\"
  else if (n =? 8)%nat then "\b"
  else if (n =? 12)%nat then "\f"
  else if (n =? 10)%nat then "\n"
  else if (n =? 13)%nat then "\r"
  else if (n =? 9)%nat then "\t"
  else if andb (32 <=? n)%nat (n <=? 126)%nat then String c EmptyString
  else String "\" (String "u" (String "0" (String "0"
         (String (hex_digit (n / 16)) (String (hex_digit (n mod 16))
            EmptyString))))).

Fixpoint escape (s : string) : string :=
  match s with
  | EmptyString => EmptyString
  | String c r => (escape_char c ++ escape r)%string
  end.

Definition encode_string (s : string) : string :=
  String dquote (escape s ++ String dquote EmptyString)%string.

Definition encode_int (n : Z) : string :=
  NilEmpty.string_of_int (Z.to_int n).

Fixpoint indent_of (level : nat) : string :=
  match level with
  | O => EmptyString
  | S k => String " " (String " " (indent_of k))
  end.

Definition newline_indent (level : nat) : string :=
  String newline (indent_of level).

Fixpoint dump (level : nat) (v : value) : string :=
  match v with
  | VNone => "null"
  | VBool true => "true"
  | VBool false => "false"
  | VInt n => encode_int n
  | VStr s => encode_string s
  | VList [] => "[]"
  | VList (x :: xs) =>
      ("[" ++ newline_indent (S level) ++ dump (S level) x
        ++ (fix items (l : list value) : string :=
              match l with
              | [] => EmptyString
              | y :: ys => "," ++ newline_indent (S level)
                            ++ dump (S level) y ++ items ys
              end) xs
        ++ newline_indent level ++ "]")%string
  | VDict [] => "{}"
  | VDict ((k, x) :: kxs) =>
      ("{" ++ newline_indent (S level) ++ encode_string k ++ ": "
        ++ dump (S level) x
        ++ (fix members (l : list (string * value)) : string :=
              match l with
              | [] => EmptyString
              | (k', y) :: r => "," ++ newline_indent (S level)
                            ++ encode_string k' ++ ": "
                            ++ dump (S level) y ++ members r
              end) kxs
        ++ newline_indent level ++ "}")%string
  end.

Definition dumps (v : value) : string := dump 0 v.

(** ** Reading: [json.load(f)] *)

(** The outcome of scanning a prefix of the text: a value and the rest of
    the text, a syntax error, or recursion cut off by the bound. *)
Inductive scan (A : Type) : Type :=
| Scanned (a : A) (rest : string)
| Malformed
| Cutoff.
Arguments Scanned {A} a rest.
Arguments Malformed {A}.
Arguments Cutoff {A}.

Definition scan_map {A B} (f : A -> B) (r : scan A) : scan B :=
  match r with
  | Scanned a rest => Scanned (f a) rest
  | Malformed => Malformed
  | Cutoff => Cutoff
  end.

Definition is_ws (c : ascii) : bool :=
  let n := nat_of_ascii c in
  orb (orb (n =? 32)%nat (n =? 9)%nat) (orb (n =? 10)%nat (n =? 13)%nat).

Fixpoint skip_ws (s : string) : string :=
  match s with
  | String c r => if is_ws c then skip_ws r else s
  | EmptyString => s
  end.

Definition hex_value (c : ascii) : option nat :=
  let n := nat_of_ascii c in
  if andb (48 <=? n)%nat (n <=? 57)%nat then Some (n - 48)%nat
  else if andb (97 <=? n)%nat (n <=? 102)%nat then Some (n - 87)%nat
  else if andb (65 <=? n)%nat (n <=? 70)%nat then Some (n - 55)%nat
  else None.

Definition hex4 (a b c d : ascii) : option nat :=
  match hex_value a, hex_value b, hex_value c, hex_value d with
  | Some x, Some y, Some z, Some w =>
      Some (((x * 16 + y) * 16 + z) * 16 + w)%nat
  | _, _, _, _ => None
  end.

Definition simple_escape (e : ascii) : option ascii :=
  let n := nat_of_ascii e in
  if (n =? 34)%nat then Some dquote
  else if (n =? 92)%nat then Some "\"%char
  else if (n =? 47)%nat then Some "/"%char
  else if (n =? 98)%nat then Some (ascii_of_nat 8)
  else if (n =? 102)%nat then Some (ascii_of_nat 12)
  else if (n =? 110)%nat then Some (ascii_of_nat 10)
  else if (n =? 114)%nat then Some (ascii_of_nat 13)
  else if (n =? 116)%nat then Some (ascii_of_nat 9)
  else None.

(** The body of a string, after its opening quote. *)
Fixpoint scan_string (s : string) : scan string :=
  match s with
  | EmptyString => Malformed
  | String c r =>
      if (nat_of_ascii c =? 34)%nat then Scanned EmptyString r
      else if (nat_of_ascii c =? 92)%nat then
        match r with
        | EmptyString => Malformed
        | String e r1 =>
            match simple_escape e with
            | Some c' => scan_map (String c') (scan_string r1)
            | None =>
                if (nat_of_ascii e =? 117)%nat then
                  match r1 with
                  | String h1 (String h2 (String h3 (String h4 r2))) =>
                      match hex4 h1 h2 h3 h4 with
                      | Some n =>
                          if (n <? 256)%nat
                          then scan_map (String (ascii_of_nat n))
                                        (scan_string r2)
                          else Malformed
                      | None => Malformed
                      end
                  | _ => Malformed
                  end
                else Malformed
            end
        end
      else if (nat_of_ascii c <? 32)%nat then Malformed
      else scan_map (String c) (scan_string r)
  end.

Definition digit_of (c : ascii) : option (uint -> uint) :=
  match c with
  | "0" => Some D0 | "1" => Some D1 | "2" => Some D2 | "3" => Some D3
  | "4" => Some D4 | "5" => Some D5 | "6" => Some D6 | "7" => Some D7
  | "8" => Some D8 | "9" => Some D9
  | _ => None
  end%char.

Fixpoint scan_digits (s : string) : uint * string :=
  match s with
  | EmptyString => (Nil, s)
  | String c r =>
      match digit_of c with
      | Some k => let (d, r') := scan_digits r in (k d, r')
      | None => (Nil, s)
      end
  end.

(** What may not follow an integer: the start of a fraction or exponent. *)
Definition float_tail (s : string) : bool :=
  match s with
  | String c _ =>
      let n := nat_of_ascii c in
      orb (n =? 46)%nat (orb (n =? 101)%nat (n =? 69)%nat)
  | EmptyString => false
  end.

(** The digits of an integer: ["0"], or a run with no leading zero. *)
Definition scan_nat (s : string) : scan Z :=
  let (d, r) := scan_digits s in
  match d with
  | Nil => Malformed
  | D0 Nil => if float_tail r then Malformed else Scanned 0 r
  | D0 _ => Malformed
  | _ => if float_tail r then Malformed else Scanned (Z.of_uint d) r
  end.

Definition scan_number (s : string) : scan Z :=
  match s with
  | String "-" r => scan_map Z.opp (scan_nat r)
  | _ => scan_nat s
  end.

Fixpoint strip_prefix (p s : string) : option string :=
  match p with
  | EmptyString => Some s
  | String a p' =>
      match s with
      | String b s' => if Ascii.eqb a b then strip_prefix p' s' else None
      | EmptyString => None
      end
  end.

Definition scan_literal (p : string) (v : value) (s : string) : scan value :=
  match strip_prefix p s with
  | Some r => Scanned v r
  | None => Malformed
  end.

(** [dict(pairs)]: a later duplicate key overrides the value. *)
Definition dict_of_pairs (l : list (string * value)) : list (string * value) :=
  fold_left (fun d kv => dict_set d (fst kv) (snd kv)) l [].

Fixpoint scan_value (fuel : nat) (s : string) : scan value :=
  match fuel with
  | O => Cutoff
  | S f =>
      match s with
      | EmptyString => Malformed
      | String c r =>
          if Ascii.eqb c dquote then scan_map VStr (scan_string r)
          else if Ascii.eqb c "[" then
            match skip_ws r with
            | EmptyString => Malformed
            | String c1 r1 =>
                if Ascii.eqb c1 "]" then Scanned (VList []) r1
                else scan_map VList (scan_elems f (String c1 r1))
            end
          else if Ascii.eqb c "{" then
            match skip_ws r with
            | EmptyString => Malformed
            | String c1 r1 =>
                if Ascii.eqb c1 "}" then Scanned (VDict []) r1
                else scan_map (fun l => VDict (dict_of_pairs l))
                              (scan_members f (String c1 r1))
            end
          else if Ascii.eqb c "n" then scan_literal "null" VNone s
          else if Ascii.eqb c "t" then scan_literal "true" (VBool true) s
          else if Ascii.eqb c "f" then scan_literal "false" (VBool false) s
          else scan_map VInt (scan_number s)
      end
  end

with scan_elems (fuel : nat) (s : string) : scan (list value) :=
  match fuel with
  | O => Cutoff
  | S f =>
      match scan_value f s with
      | Scanned v r =>
          match skip_ws r with
          | EmptyString => Malformed
          | String c r1 =>
              if Ascii.eqb c "]" then Scanned [v] r1
              else if Ascii.eqb c ","
              then scan_map (cons v) (scan_elems f (skip_ws r1))
              else Malformed
          end
      | Malformed => Malformed
      | Cutoff => Cutoff
      end
  end

with scan_members (fuel : nat) (s : string) : scan (list (string * value)) :=
  match fuel with
  | O => Cutoff
  | S f =>
      match s with
      | EmptyString => Malformed
      | String c r =>
          if Ascii.eqb c dquote then
            match scan_string r with
            | Scanned k r1 =>
                match skip_ws r1 with
                | EmptyString => Malformed
                | String c2 r2 =>
                    if Ascii.eqb c2 ":" then
                      match scan_value f (skip_ws r2) with
                      | Scanned v r3 =>
                          match skip_ws r3 with
                          | EmptyString => Malformed
                          | String c4 r4 =>
                              if Ascii.eqb c4 "}" then Scanned [(k, v)] r4
                              else if Ascii.eqb c4 ","
                              then scan_map (cons (k, v))
                                            (scan_members f (skip_ws r4))
                              else Malformed
                          end
                      | Malformed => Malformed
                      | Cutoff => Cutoff
                      end
                    else Malformed
                end
            | Malformed => Malformed
            | Cutoff => Cutoff
            end
          else Malformed
      end
  end.

(** The text that may follow an integer: anything but a digit, a fraction
    or an exponent. *)
Definition ends_number (s : string) : bool :=
  match s with
  | EmptyString => true
  | String c _ =>
      match digit_of c with
      | Some _ => false
      | None => negb (float_tail s)
      end
  end.

(** The pieces of [dump], by name. *)
Fixpoint dump_items (level : nat) (l : list value) : string :=
  match l with
  | [] => EmptyString
  | y :: ys => ("," ++ newline_indent level ++ dump level y
                 ++ dump_items level ys)%string
  end.

Fixpoint dump_members (level : nat) (l : list (string * value)) : string :=
  match l with
  | [] => EmptyString
  | (k, y) :: r => ("," ++ newline_indent level ++ encode_string k ++ ": "
                     ++ dump level y ++ dump_members level r)%string
  end.

(** Objects with distinct keys, all the way down: the values that are
    Python objects. *)
Fixpoint distinct_keys (v : value) : Prop :=
  match v with
  | VList l =>
      (fix all (l : list value) : Prop :=
         match l with
         | [] => True
         | x :: r => distinct_keys x /\ all r
         end) l
  | VDict d =>
      NoDup (map fst d)
      /\ (fix all (d : list (string * value)) : Prop :=
            match d with
            | [] => True
            | kx :: r => distinct_keys (snd kx) /\ all r
            end) d
  | _ => True
  end.

(** A bound on the depth of recursion [scan_value] needs to read [v]
    back. *)
Fixpoint weight (v : value) : nat :=
  match v with
  | VList l =>
      S ((fix sum (l : list value) : nat :=
            match l with
            | [] => O
            | x :: r => S (weight x + sum r)
            end) l)
  | VDict d =>
      S ((fix sum (d : list (string * value)) : nat :=
            match d with
            | [] => O
            | kx :: r => S (weight (snd kx) + sum r)
            end) d)
  | _ => 1%nat
  end.

(** The first character of a written value: not white space, and none of
    the closing brackets. *)
Definition opens (s : string) : Prop :=
  exists c r, s = String c r
              /\ is_ws c = false
              /\ Ascii.eqb c "]" = false /\ Ascii.eqb c "}" = false.

(** [v] is read back from its text, whatever follows it in an array or an
    object. *)
Definition reads_back (v : value) : Prop :=
  forall level rest fuel,
    (weight v <= fuel)%nat -> ends_number rest = true ->
    scan_value fuel (dump level v ++ rest) = Scanned v rest.

Definition fits (v : value) : Prop :=
  forall level, (weight v <= String.length (dump level v))%nat.

(** [json.loads(s)]: one value, with white space around it and nothing
    else.  The bound on the recursion is never reached (see
    [loads_never_cutoff]). *)
Definition loads (s : string) : option value :=
  match scan_value (2 * String.length s + 2) (skip_ws s) with
  | Scanned v r =>
      match skip_ws r with
      | EmptyString => Some v
      | _ => None
      end
  | _ => None
  end.

End Json.

(* ================================================================== *)
(** * The environment of one process *)
(* ================================================================== *)

Module World.
Import Py.

(** What [datetime.now()] returns, to the second. *)
Record datetime : Type := {
  year : nat; month : nat; day : nat;
  hour : nat; minute : nat; second : nat
}.

(** How the file system answers an attempt to write. *)
Inductive disk : Type :=
| Healthy
| Denied                (* [open(path, 'w')] fails *)
| Full (room : nat).    (* a write stops after [room] characters *)

(** Everything the process prints, asks, reads or plays, in order.  Each
    message of the source (a heading with its rule, the lines of one notice,
    one line of a listing) is one constructor carrying the values it
    interpolates. *)
Inductive event : Type :=
| Ask (prompt : string)
| Answer (line : string)
| Beep (frequency duration : Z)
| Bell
| Say (message : string)
| OutSoundMenu (tts : bool)
| OutBeepsEnabled
| OutTtsEnabled
| OutTtsMissing
| OutSilent
| OutInvalidChoice
| OutTtsFallback
| OutCountdown (label : string) (minutes : Z)
| OutTick (mins secs : Z)
| OutCountdownDone (label : string)
| OutStarting (task : string)
| OutCompleted (task : string)
| OutReady
| OutNoToday
| OutTodayHeader (today : string)
| OutItem (index : Z) (task : value)
| OutTodayDetail (time duration : value)
| OutTodayTotal (count : Z)
| OutFocus (minutes : Z)
| OutNoHistory
| OutHistoryHeader (limit : Z)
| OutHistoryDetail (date time duration : value)
| OutNoStats
| OutStatsHeader
| OutTotal (count : Z)
| OutActiveDays (count : Z)
| OutAverage (sessions_per_day : Q)
| OutBestDay (day : value) (count : Z)
| OutRecentHeader
| OutDayBar (day : value) (count : Z)
| OutHelp
| OutMissingTask
| OutUnknownCommand (command : string).

Record world : Type := {
  stdin : list string;            (* the lines still to be read *)
  trace : list event;             (* oldest first *)
  files : string -> option string;
  storage : disk;
  clock : Z;                      (* [time.time()], in microseconds *)
  latency : N;                    (* microseconds a clock reading takes *)
  wall : nat -> datetime;         (* the n-th answer of [datetime.now()] *)
  wall_reads : nat;
  tts_available : bool;           (* [TTS_AVAILABLE] *)
  windows : bool                  (* [platform.system() == 'Windows'] *)
}.

Definition set_stdin (l : list string) (w : world) : world :=
  {| stdin := l; trace := trace w; files := files w; storage := storage w;
     clock := clock w; latency := latency w; wall := wall w;
     wall_reads := wall_reads w; tts_available := tts_available w;
     windows := windows w |}.

Definition emit (e : event) (w : world) : world :=
  {| stdin := stdin w; trace := trace w ++ [e]; files := files w;
     storage := storage w; clock := clock w; latency := latency w;
     wall := wall w; wall_reads := wall_reads w;
     tts_available := tts_available w; windows := windows w |}.

Definition emit_all (l : list event) (w : world) : world :=
  fold_left (fun w' e => emit e w') l w.

Definition set_clock (c : Z) (w : world) : world :=
  {| stdin := stdin w; trace := trace w; files := files w;
     storage := storage w; clock := c; latency := latency w;
     wall := wall w; wall_reads := wall_reads w;
     tts_available := tts_available w; windows := windows w |}.

Definition set_files (f : string -> option string) (w : world) : world :=
  {| stdin := stdin w; trace := trace w; files := f;
     storage := storage w; clock := clock w; latency := latency w;
     wall := wall w; wall_reads := wall_reads w;
     tts_available := tts_available w; windows := windows w |}.

Definition tick_wall (w : world) : world :=
  {| stdin := stdin w; trace := trace w; files := files w;
     storage := storage w; clock := clock w; latency := latency w;
     wall := wall w; wall_reads := S (wall_reads w);
     tts_available := tts_available w; windows := windows w |}.

(** Kinds of events, by the part of the program that produces them. *)
Definition dialogue (e : event) : bool :=
  match e with
  | Ask _ | Answer _ | OutSoundMenu _ | OutBeepsEnabled | OutTtsEnabled
  | OutTtsMissing | OutSilent | OutInvalidChoice => true
  | _ => false
  end.

Definition sound (e : event) : bool :=
  match e with
  | Beep _ _ | Bell | Say _ | OutTtsFallback => true
  | _ => false
  end.

Definition timing (label : string) (e : event) : bool :=
  match e with
  | OutCountdown l _ | OutCountdownDone l => (l =? label)%string
  | OutTick _ _ => true
  | _ => false
  end.

Definition tick (e : event) : bool :=
  match e with
  | OutTick _ _ => true
  | _ => false
  end.

Definition work_done : event := OutCountdownDone "Work Session".

(** What precedes the end of the work countdown in a session. *)
Definition opening (e : event) : bool :=
  match e with
  | OutStarting _ | OutTick _ _ => true
  | OutCountdown l _ => (l =? "Work Session")%string
  | _ => orb (dialogue e) (sound e)
  end.

(** What follows an accepted break. *)
Definition pause (e : event) : bool :=
  match e with
  | OutReady => true
  | _ => orb (timing "Break Time" e) (sound e)
  end.

(** How the file system answers a request to write [text]. *)
Definition write_fails (d : disk) (text : string) : bool :=
  match d with
  | Healthy => false
  | Denied => true
  | Full room => (room <? String.length text)%nat
  end.

(** [time.time()] *)
Definition time_time (w : world) : Z * world :=
  (clock w, set_clock (clock w + Z.of_N (latency w)) w).

(** [time.sleep(d)], [d] in microseconds *)
Definition time_sleep (d : Z) (w : world) : world :=
  set_clock (clock w + d) w.

(** [datetime.now()] *)
Definition datetime_now (w : world) : datetime * world :=
  (wall w (wall_reads w), tick_wall w).

Definition write_file (path text : string) (w : world) : world :=
  set_files (fun p => if (p =? path)%string then Some text else files w p) w.

Fixpoint take (n : nat) (s : string) : string :=
  match n, s with
  | S k, String c r => String c (take k r)
  | _, _ => EmptyString
  end.

(** Decimal digits, padded with zeros on the left up to [width]. *)
Definition digits (n : nat) : string :=
  NilEmpty.string_of_uint (Nat.to_uint n).

Fixpoint zeros (k : nat) : string :=
  match k with
  | O => EmptyString
  | S j => String "0" (zeros j)
  end.

Definition pad (width n : nat) : string :=
  let d := digits n in
  (zeros (width - String.length d) ++ d)%string.

(** [strftime('%Y-%m-%d')] and [strftime('%H:%M:%S')] *)
Definition format_date (t : datetime) : string :=
  (pad 4 (year t) ++ "-" ++ pad 2 (month t) ++ "-" ++ pad 2 (day t))%string.

Definition format_time (t : datetime) : string :=
  (pad 2 (hour t) ++ ":" ++ pad 2 (minute t) ++ ":" ++ pad 2 (second t))%string.

(** [str.isspace] below code point 256, and [s.strip()]. *)
Definition is_space (c : ascii) : bool :=
  let n := nat_of_ascii c in
  orb (andb (9 <=? n)%nat (n <=? 13)%nat)
      (orb (andb (28 <=? n)%nat (n <=? 32)%nat)
           (orb (n =? 133)%nat (n =? 160)%nat)).

Fixpoint lstrip (s : string) : string :=
  match s with
  | String c r => if is_space c then lstrip r else s
  | EmptyString => s
  end.

Fixpoint rstrip (s : string) : string :=
  match s with
  | EmptyString => EmptyString
  | String c r =>
      match rstrip r with
      | EmptyString => if is_space c then EmptyString
                       else String c EmptyString
      | r' => String c r'
      end
  end.

Definition strip (s : string) : string := rstrip (lstrip s).

End World.

(* ================================================================== *)
(** * The program *)
(* ================================================================== *)

Module Pomodoro.
Import Py World.

(** The attributes of a [PomodoroTimer]. *)
Record timer : Type := {
  data_file : string;
  work_duration : Z;              (* seconds *)
  break_duration : Z;             (* seconds *)
  sessions : value;
  sound_mode : option string;
  tts_engine : bool               (* [False] while it is still [None] *)
}.

Definition set_sessions (v : value) (t : timer) : timer :=
  {| data_file := data_file t; work_duration := work_duration t;
     break_duration := break_duration t; sessions := v;
     sound_mode := sound_mode t; tts_engine := tts_engine t |}.

Definition set_sound_mode (m : string) (t : timer) : timer :=
  {| data_file := data_file t; work_duration := work_duration t;
     break_duration := break_duration t; sessions := sessions t;
     sound_mode := Some m; tts_engine := tts_engine t |}.

Definition set_tts_engine (t : timer) : timer :=
  {| data_file := data_file t; work_duration := work_duration t;
     break_duration := break_duration t; sessions := sessions t;
     sound_mode := sound_mode t; tts_engine := true |}.

(** ** Methods as state transformers that may raise

    A method runs on the object and the environment; an exception leaves
    both as they were when it was raised. *)

Definition state : Type := timer * world.
Definition M (A : Type) : Type := state -> result A * state.

Definition ret {A} (a : A) : M A := fun st => (Ok a, st).
Definition raise {A} (e : exn) : M A := fun st => (Raise e, st).
Definition bind {A B} (c : M A) (k : A -> M B) : M B :=
  fun st => match c st with
            | (Ok a, st') => k a st'
            | (Raise e, st') => (Raise e, st')
            end.
Definition lift {A} (r : result A) : M A := fun st => (r, st).

Notation "x <- c ;; k" := (bind c (fun x => k))
  (at level 61, c at next level, right associativity).
Notation "c ;;; k" := (bind c (fun _ => k))
  (at level 61, right associativity).

Definition self : M timer := fun st => (Ok (fst st), st).
Definition env : M world := fun st => (Ok (snd st), st).
Definition update (f : timer -> timer) : M unit :=
  fun st => (Ok tt, (f (fst st), snd st)).
Definition effect (f : world -> world) : M unit :=
  fun st => (Ok tt, (fst st, f (snd st))).
Definition print (e : event) : M unit := effect (emit e).
Definition sleep (microseconds : Z) : M unit :=
  effect (time_sleep microseconds).
Definition now : M datetime :=
  fun st => let (d, w) := datetime_now (snd st) in (Ok d, (fst st, w)).

(** [input(prompt)] *)
Definition input (prompt : string) : M string :=
  fun st =>
    let w := emit (Ask prompt) (snd st) in
    match stdin w with
    | [] => (Raise EOFError, (fst st, w))
    | line :: rest => (Ok line, (fst st, emit (Answer line) (set_stdin rest w)))
    end.

Fixpoint for_each {A} (l : list A) (body : A -> M unit) : M unit :=
  match l with
  | [] => ret tt
  | x :: r => body x ;;; for_each r body
  end.

Fixpoint enumerate {A} (start : Z) (l : list A) : list (Z * A) :=
  match l with
  | [] => []
  | x :: r => (start, x) :: enumerate (start + 1) r
  end.

(** ** Persistence *)

(** [try: body / except: handler], the bare [except] that catches
    everything. *)
Definition try_except {A} (body handler : M A) : M A :=
  fun st => match body st with
            | (Ok a, st') => (Ok a, st')
            | (Raise _, st') => handler st'
            end.

(** [os.path.exists(path)] *)
Definition path_exists (path : string) : M bool :=
  w <- env ;;
  ret (match files w path with Some _ => true | None => false end).

(** [open(path, 'r')] followed by reading the whole file *)
Definition read_text (path : string) : M string :=
  w <- env ;;
  match files w path with
  | Some text => ret text
  | None => raise OSError
  end.

(** [json.load(f)] on the text of [f] *)
Definition json_load (text : string) : M value :=
  match Json.loads text with
  | Some v => ret v
  | None => raise ValueError
  end.

(** [open(path, 'w')]: creates or empties the file *)
Definition open_write (path : string) : M unit :=
  w <- env ;;
  match storage w with
  | Denied => raise OSError
  | _ => effect (write_file path EmptyString)
  end.

(** Writing [text] to the file just opened, and closing it *)
Definition write_text (path text : string) : M unit :=
  w <- env ;;
  match storage w with
  | Full room =>
      if (room <? String.length text)%nat
      then effect (write_file path (take room text)) ;;; raise OSError
      else effect (write_file path text)
  | _ => effect (write_file path text)
  end.

Definition load_sessions : M value :=
  t <- self ;;
  present <- path_exists (data_file t) ;;
  if present : bool then
    try_except
      (text <- read_text (data_file t) ;; json_load text)
      (ret (VList []))
  else ret (VList []).

Definition save_sessions : M unit :=
  t <- self ;;
  open_write (data_file t) ;;;
  write_text (data_file t) (Json.dumps (sessions t)).

(** [PomodoroTimer(data_file)]: the attributes in the order the constructor
    assigns them; [sessions] has no value before [load_sessions] returns. *)
Definition __init__ (path : string) (w : world) : result unit * state :=
  let blank := {| data_file := path; work_duration := 25 * 60;
                  break_duration := 5 * 60; sessions := VNone;
                  sound_mode := None; tts_engine := false |} in
  (loaded <- load_sessions ;; update (set_sessions loaded)) (blank, w).

(** ** Sounds *)

Definition _play_beep (sound_type : string) : M unit :=
  w <- env ;;
  if windows w then
    if (sound_type =? "start")%string then print (Beep 800 200)
    else if (sound_type =? "complete")%string then
      for_each [0; 1; 2] (fun _ => print (Beep 1000 300) ;;; sleep 100000)
    else if (sound_type =? "break_end")%string then print (Beep 600 400)
    else ret tt
  else
    if (sound_type =? "start")%string then print Bell
    else if (sound_type =? "complete")%string then
      for_each [0; 1; 2] (fun _ => print Bell ;;; sleep 200000)
    else if (sound_type =? "break_end")%string then print Bell
    else ret tt.

Definition tts_message (sound_type : string) : string :=
  if (sound_type =? "start")%string
  then "Pomodoro session starting. Stay focused!"
  else if (sound_type =? "complete")%string
  then "Great work! Pomodoro complete. Time for a break."
  else if (sound_type =? "break_end")%string
  then "Break time is over. Ready for the next session?"
  else "".

Definition _play_tts (sound_type : string) : M unit :=
  w <- env ;;
  if negb (tts_available w) then
    print OutTtsFallback ;;; _play_beep sound_type
  else
    t <- self ;;
    (if tts_engine t then ret tt else update set_tts_engine) ;;;
    let message := tts_message sound_type in
    if (message =? "")%string then ret tt else print (Say message).

Definition play_sound (sound_type : string) : M unit :=
  t <- self ;;
  match sound_mode t with
  | Some m =>
      if (m =? "beeps")%string then _play_beep sound_type
      else if (m =? "tts")%string then _play_tts sound_type
      else ret tt
  | None => ret tt
  end.

(** The [while True] of [choose_sound_mode]: one round per line of standard
    input; at the end of input [input] raises [EOFError]. *)
Fixpoint choose_sound_rounds (lines : list string) : M unit :=
  match lines with
  | [] => _ <- input "Choose sound mode (1/2/3): " ;; ret tt
  | _ :: rest =>
      line <- input "Choose sound mode (1/2/3): " ;;
      let choice := strip line in
      if (choice =? "1")%string then
        update (set_sound_mode "beeps") ;;; print OutBeepsEnabled
      else if (choice =? "2")%string then
        w <- env ;;
        if tts_available w then
          update (set_sound_mode "tts") ;;; print OutTtsEnabled
        else
          print OutTtsMissing ;;; choose_sound_rounds rest
      else if (choice =? "3")%string then
        update (set_sound_mode "none") ;;; print OutSilent
      else
        print OutInvalidChoice ;;; choose_sound_rounds rest
  end.

Definition choose_sound_mode : M unit :=
  w <- env ;;
  print (OutSoundMenu (tts_available w)) ;;;
  choose_sound_rounds (stdin w).

(** ** The countdown *)

(** The [while time.time() < end_time] loop.  [rounds] bounds the number of
    iterations; [countdown] passes a bound the loop never reaches
    (see [countdown_rounds_suffice]). *)
Fixpoint countdown_loop (rounds : nat) (end_time : Z) (w : world) : world :=
  match rounds with
  | O => w
  | S k =>
      let (t1, w1) := time_time w in
      if t1 <? end_time then
        let (t2, w2) := time_time w1 in
        let remaining := Z.quot (end_time - t2) 1000000 in   (* [int(...)] *)
        let mins := remaining / 60 in
        let secs := remaining mod 60 in
        countdown_loop k end_time
          (time_sleep 1000000 (emit (OutTick mins secs) w2))
      else w1
  end.

Definition countdown (duration : Z) (label : string) : M bool :=
  print (OutCountdown label (duration / 60)) ;;;
  w <- env ;;
  let (t0, w0) := time_time w in
  let end_time := t0 + duration * 1000000 in
  effect (fun _ => countdown_loop (S (Z.to_nat duration)) end_time w0) ;;;
  print (OutCountdownDone label) ;;;
  ret true.

(** ** One session *)

Definition append (v : value) : M unit :=
  t <- self ;;
  match sessions t with
  | VList l => update (set_sessions (VList (l ++ [v])))
  | _ => raise AttributeError
  end.

Definition start_session (task_name : string) : M unit :=
  t <- self ;;
  (match sound_mode t with
   | None => choose_sound_mode
   | Some _ => ret tt
   end) ;;;
  print (OutStarting task_name) ;;;
  play_sound "start" ;;;
  t <- self ;;
  completed <- countdown (work_duration t) "Work Session" ;;
  if completed : bool then
    play_sound "complete" ;;;
    date_instant <- now ;;
    time_instant <- now ;;
    t <- self ;;
    let session := VDict [("task", VStr task_name);
                          ("date", VStr (format_date date_instant));
                          ("time", VStr (format_time time_instant));
                          ("duration", VInt (work_duration t / 60));
                          ("completed", VBool true)] in
    append session ;;;
    save_sessions ;;;
    print (OutCompleted task_name) ;;;
    answer <- input "Take a 5-minute break? (y/n): " ;;
    let take_break := lower answer in
    if (take_break =? "y")%string then
      t <- self ;;
      _ <- countdown (break_duration t) "Break Time" ;;
      play_sound "break_end" ;;;
      print OutReady
    else ret tt
  else ret tt.

(** ** Today's sessions *)

(** [[s for s in ... if s['date'] == today]] *)
Fixpoint select_date (today : string) (l : list value) : result (list value) :=
  match l with
  | [] => Ok []
  | s :: r =>
      rbind (getitem s "date") (fun d =>
      rbind (select_date today r) (fun r' =>
      Ok (if eq_str d today then s :: r' else r')))
  end.

Definition today_sessions (log : value) (today : string)
  : result (list value) :=
  rbind (iterate log) (select_date today).

(** [sum(s['duration'] for s in ...)] *)
Fixpoint sum_durations (acc : Z) (l : list value) : result Z :=
  match l with
  | [] => Ok acc
  | s :: r =>
      rbind (getitem s "duration") (fun d =>
      rbind (add_int acc d) (fun acc' => sum_durations acc' r))
  end.

Definition show_today : M unit :=
  instant <- now ;;
  let today := format_date instant in
  t <- self ;;
  selected <- lift (today_sessions (sessions t) today) ;;
  match selected with
  | [] => print OutNoToday
  | _ =>
      print (OutTodayHeader today) ;;;
      for_each (enumerate 1 selected) (fun item =>
        let (i, session) := item : Z * value in
        task <- lift (getitem session "task") ;;
        print (OutItem i task) ;;;
        time <- lift (getitem session "time") ;;
        duration <- lift (getitem session "duration") ;;
        print (OutTodayDetail time duration)) ;;;
      print (OutTodayTotal (Z.of_nat (List.length selected))) ;;;
      total_minutes <- lift (sum_durations 0 selected) ;;
      print (OutFocus total_minutes)
  end.

(** ** History *)

(** The objects that accept a slice; a dictionary does not. *)
Definition sequence_items (v : value) : result (list value) :=
  match v with
  | VList l => Ok l
  | VStr s => Ok (chars s)
  | _ => Raise TypeError
  end.

(** [self.sessions[-limit:][::-1]] *)
Definition recent (log : value) (limit : Z) : result (list value) :=
  rbind (sequence_items log) (fun l => Ok (List.rev (slice_from (- limit) l))).

Definition show_history (limit : Z) : M unit :=
  t <- self ;;
  if negb (truthy (sessions t)) then print OutNoHistory
  else
    print (OutHistoryHeader limit) ;;;
    shown <- lift (recent (sessions t) limit) ;;
    for_each (enumerate 1 shown) (fun item =>
      let (i, session) := item : Z * value in
      task <- lift (getitem session "task") ;;
      print (OutItem i task) ;;;
      date <- lift (getitem session "date") ;;
      time <- lift (getitem session "time") ;;
      duration <- lift (getitem session "duration") ;;
      print (OutHistoryDetail date time duration)).

(** ** Statistics *)

(** The local dictionary [days]: hashable keys in insertion order. *)
Definition day_counts : Type := list (value * Z).

Fixpoint days_get (days : day_counts) (k : value) (default : Z) : Z :=
  match days with
  | [] => default
  | (k', n) :: r => if key_eqb k' k then n else days_get r k default
  end.

Fixpoint days_set (days : day_counts) (k : value) (n : Z) : day_counts :=
  match days with
  | [] => [(k, n)]
  | (k', n') :: r =>
      if key_eqb k' k then (k', n) :: r else (k', n') :: days_set r k n
  end.

(** [for session in ...: days[date] = days.get(date, 0) + 1] *)
Fixpoint count_days (days : day_counts) (l : list value)
  : result day_counts :=
  match l with
  | [] => Ok days
  | session :: r =>
      rbind (getitem session "date") (fun date =>
      if hashable date
      then count_days (days_set days date (days_get days date 0 + 1)) r
      else Raise TypeError)
  end.

(** [max(items, key=lambda x: x[1])]: a later item replaces the best one
    only when its count is strictly greater. *)
Fixpoint max_by_count (best : value * Z) (l : day_counts) : value * Z :=
  match l with
  | [] => best
  | x :: r => max_by_count (if snd best <? snd x then x else best) r
  end.

(** [sorted(days.keys())[-7:]] *)
Definition recent_days (days : day_counts) : result (list value) :=
  rbind (sorted_of (map fst days)) (fun ks => Ok (slice_from (-7) ks)).

Definition show_stats : M unit :=
  t <- self ;;
  if negb (truthy (sessions t)) then print OutNoStats
  else
    print OutStatsHeader ;;;
    total_sessions <- lift (len (sessions t)) ;;
    print (OutTotal total_sessions) ;;;
    items <- lift (iterate (sessions t)) ;;
    total_minutes <- lift (sum_durations 0 items) ;;
    print (OutFocus total_minutes) ;;;
    days <- lift (count_days [] items) ;;
    let active := Z.of_nat (List.length days) in
    print (OutActiveDays active) ;;;
    (if active =? 0 then raise ZeroDivisionError
     else print (OutAverage (inject_Z total_sessions / inject_Z active))) ;;;
    (match days with
     | [] => ret tt
     | first :: others =>
         let best_day := max_by_count first others in
         print (OutBestDay (fst best_day) (snd best_day))
     end) ;;;
    print OutRecentHeader ;;;
    shown <- lift (recent_days days) ;;
    for_each shown (fun day => print (OutDayBar day (days_get days day 0))).

(** ** The command line *)

Fixpoint join (sep : string) (l : list string) : string :=
  match l with
  | [] => EmptyString
  | [x] => x
  | x :: r => (x ++ sep ++ join sep r)%string
  end.

(** [main()], with [sys.argv] and the environment it starts in.  A [Raise]
    in the outcome is an exception nothing caught. *)
Definition show_help : M unit := print OutHelp.

(** The body of [main] after the timer is built. *)
Definition dispatch (argv : list string) : M unit :=
  match argv with
  | [] | [_] => show_help
  | _ :: first :: rest =>
      let command := lower first in
      if (command =? "start")%string then
        match rest with
        | [] => print OutMissingTask
        | _ => start_session (join " " rest)
        end
      else if (command =? "today")%string then show_today
      else if (command =? "history")%string then show_history 10
      else if (command =? "stats")%string then show_stats
      else if (command =? "help")%string then show_help
      else print (OutUnknownCommand command)
  end.

Definition main (argv : list string) (w : world) : result unit * state :=
  match __init__ "pomodoro_data.json" w with
  | (Ok _, st) => dispatch argv st
  | (Raise e, st) => (Raise e, st)
  end.

End Pomodoro.

(* ================================================================== *)
(** * Session records *)
(* ================================================================== *)

(** The shape of the dictionaries [start_session] builds, used to state what
    the views compute on a well-formed log. *)

Module Log.
Import Py.

Record session : Type := {
  task : string;
  date : string;
  time : string;
  duration : Z;
  completed : bool
}.

Definition to_value (s : session) : value :=
  VDict [("task", VStr (task s)); ("date", VStr (date s));
         ("time", VStr (time s)); ("duration", VInt (duration s));
         ("completed", VBool (completed s))].

Definition log_value (l : list session) : value := VList (map to_value l).



Definition total_minutes (l : list session) : Z :=
  fold_right (fun s acc => duration s + acc) 0 l.



(** The record [start_session] builds for [task_name], from two readings of
    the wall clock and the work duration in seconds. *)
Definition new_record (task_name : string)
  (date_instant time_instant : World.datetime) (seconds : Z) : value :=
  VDict [("task", VStr task_name);
         ("date", VStr (World.format_date date_instant));
         ("time", VStr (World.format_time time_instant));
         ("duration", VInt (seconds / 60));
         ("completed", VBool true)].

(** A log without a record whose [completed] field is false. *)
Definition no_incomplete (log : value) : Prop :=
  forall l s, log = VList l -> In s l ->
              getitem s "completed" <> Ok (VBool false).

(** A run of the program in which a failure to write would be contained:
    [main] ends without an exception, and the log in memory is the one that
    was loaded. *)
Definition failure_contained (argv : list string) (w : World.world) : Prop :=
  forall r t' w' r0 t0 w0,
    Pomodoro.main argv w = (r, (t', w')) ->
    Pomodoro.__init__ "pomodoro_data.json" w = (r0, (t0, w0)) ->
    r = Ok tt /\ Pomodoro.sessions t' = Pomodoro.sessions t0.

(** What a run leaves untouched: the configuration of the timer, the disk
    and the answers of the wall clock. *)
Definition same_setting (a b : Pomodoro.state) : Prop :=
  Pomodoro.data_file (fst a) = Pomodoro.data_file (fst b)
  /\ Pomodoro.work_duration (fst a) = Pomodoro.work_duration (fst b)
  /\ Pomodoro.break_duration (fst a) = Pomodoro.break_duration (fst b)
  /\ World.storage (snd a) = World.storage (snd b)
  /\ World.wall (snd a) = World.wall (snd b).

(** A step that only talks: the log, the files and the count of wall-clock
    readings stay, and the trace grows by events of one kind. *)
Definition steady (a b : Pomodoro.state) : Prop :=
  same_setting a b
  /\ Pomodoro.sessions (fst a) = Pomodoro.sessions (fst b)
  /\ World.files (snd a) = World.files (snd b)
  /\ World.wall_reads (snd a) = World.wall_reads (snd b).

Definition talks (kind : World.event -> bool) (a b : Pomodoro.state) : Prop :=
  steady a b
  /\ exists new, World.trace (snd b) = World.trace (snd a) ++ new
                 /\ Forall (fun e => kind e = true) new.







Definition history_lines (selected : list session) : list World.event :=
  flat_map (fun item : Z * session =>
              let (i, s) := item in
              [World.OutItem i (VStr (task s));
               World.OutHistoryDetail (VStr (date s)) (VStr (time s))
                                      (VInt (duration s))])
           (Pomodoro.enumerate 1 selected).

(** The last [n] elements of a list. *)
Definition last_n {A} (n : nat) (l : list A) : list A :=
  skipn (List.length l - n) l.

(** A command keeps a relation between the state it starts in and the state
    it ends in, whether it returns or raises. *)
Definition keeps {A} (R : Pomodoro.state -> Pomodoro.state -> Prop)
  (c : Pomodoro.M A) : Prop :=
  forall st r st', c st = (r, st') -> R st st'.

(** What a view leaves as it was: the timer with its log, the files, the
    disk, standard input and the clock. *)
Definition view_frame (a b : Pomodoro.state) : Prop :=
  fst b = fst a
  /\ World.files (snd b) = World.files (snd a)
  /\ World.storage (snd b) = World.storage (snd a)
  /\ World.stdin (snd b) = World.stdin (snd a)
  /\ World.clock (snd b) = World.clock (snd a).


(** The sum of the counts of a per-day mapping. *)
Definition total_count (days : Pomodoro.day_counts) : Z :=
  fold_right (fun kn acc => snd kn + acc) 0 days.

Definition is_dict (v : value) : Prop := exists d, v = VDict d.

(** The clock of [b] is not behind the clock of [a]. *)
Definition later (a b : Pomodoro.state) : Prop :=
  World.clock (snd a) <= World.clock (snd b).

(** The trace of [b] continues the trace of [a]: nothing printed is taken
    back. *)
Definition grows (a b : Pomodoro.state) : Prop :=
  exists new, World.trace (snd b) = World.trace (snd a) ++ new.



End Log.

(* ================================================================== *)
(** * Sample environments *)
(* ================================================================== *)

Module Sample.
Import Py World.

Definition last_second : datetime :=
  {| year := 2024; month := 1; day := 1;
     hour := 23; minute := 59; second := 59 |}.

Definition first_second : datetime :=
  {| year := 2024; month := 1; day := 2;
     hour := 0; minute := 0; second := 0 |}.

(** A first run in silent mode that declines the break.  The work countdown
    ends in the last second of 1 January 2024, and the next reading of the
    wall clock falls on 2 January. *)
Definition fresh : world :=
  {| stdin := ["3"; "n"]; trace := []; files := fun _ => None;
     storage := Healthy; clock := 0; latency := 0;
     wall := fun n => match n with O => last_second | _ => first_second end;
     wall_reads := 0; tts_available := false; windows := false |}.

(** The same, on a disk that refuses to open the data file for writing. *)
Definition read_only : world :=
  {| stdin := ["3"; "n"]; trace := []; files := fun _ => None;
     storage := Denied; clock := 0; latency := 0;
     wall := fun n => match n with O => last_second | _ => first_second end;
     wall_reads := 0; tts_available := false; windows := false |}.

Definition abandoned : Log.session :=
  {| Log.task := "essay"; Log.date := "2024-01-01"; Log.time := "09:30:00";
     Log.duration := 25; Log.completed := false |}.

(** A data file, edited by hand, that holds a record with [completed]
    false. *)
Definition edited : world :=
  {| stdin := []; trace := [];
     files := fun p => if (p =? "pomodoro_data.json")%string
                       then Some (Json.dumps (Log.log_value [abandoned]))
                       else None;
     storage := Healthy; clock := 0; latency := 0;
     wall := fun _ => last_second;
     wall_reads := 0; tts_available := false; windows := false |}.

Definition start_command : list string :=
  ["pomodoro.py"; "start"; "write"; "report"].

(** A timer with an empty log and no sound preference yet. *)
Definition novice : Pomodoro.timer :=
  {| Pomodoro.data_file := "pomodoro_data.json";
     Pomodoro.work_duration := 25 * 60;
     Pomodoro.break_duration := 5 * 60;
     Pomodoro.sessions := VList [];
     Pomodoro.sound_mode := None;
     Pomodoro.tts_engine := false |}.

Definition reading : Log.session :=
  {| Log.task := "reading"; Log.date := "2024-01-01"; Log.time := "10:00:00";
     Log.duration := 25; Log.completed := true |}.

Definition writing : Log.session :=
  {| Log.task := "writing"; Log.date := "2024-01-01"; Log.time := "11:00:00";
     Log.duration := 25; Log.completed := true |}.

Definition review : Log.session :=
  {| Log.task := "review"; Log.date := "2024-01-02"; Log.time := "09:00:00";
     Log.duration := 25; Log.completed := true |}.

(** A first run with beeps that takes the break. *)
Definition eager : world :=
  {| stdin := ["1"; "y"]; trace := []; files := fun _ => None;
     storage := Healthy; clock := 0; latency := 0;
     wall := fun _ => last_second;
     wall_reads := 0; tts_available := false; windows := false |}.

End Sample.

(* ================================================================== *)
(** * Properties *)
(* ================================================================== *)

(** Running a method symbolically: the monad's operations are unfolded and
    the pairs they build are projected, nothing else. *)
Ltac mrun :=
  repeat (unfold Pomodoro.bind, Pomodoro.ret, Pomodoro.raise, Pomodoro.lift,
            Pomodoro.self, Pomodoro.env, Pomodoro.update, Pomodoro.effect,
            Pomodoro.print, Pomodoro.sleep, Pomodoro.now, World.datetime_now;
          cbn beta iota zeta delta [fst snd]).

(** ** The text of the data file *)

Section DataFile.
Import Py Json.

(* ---- strings ---- *)

Lemma append_assoc (a b c : string) : ((a ++ b) ++ c = a ++ (b ++ c))%string.
Proof. induction a as [|x a IH]; cbn; [reflexivity | now rewrite IH]. Qed.

Lemma append_length (a b : string) :
  String.length (a ++ b) = (String.length a + String.length b)%nat.
Proof. induction a as [|x a IH]; cbn; [reflexivity | now rewrite IH]. Qed.

(* ---- strings of the data file ---- *)

Lemma scan_escaped_char (c : ascii) (tail : string) :
  scan_string (escape_char c ++ tail)
  = scan_map (String c) (scan_string tail).
Proof.
  destruct c as [[] [] [] [] [] [] [] []]; reflexivity.
Qed.

Lemma scan_escaped (s rest : string) :
  scan_string (escape s ++ String dquote rest) = Scanned s rest.
Proof.
  induction s as [|c s IH]; [reflexivity|].
  cbn [escape]. rewrite append_assoc, scan_escaped_char, IH. reflexivity.
Qed.

(* ---- integers of the data file ---- *)

Lemma nzhead_no_zero (d u : uint) : nzhead d <> D0 u.
Proof. induction d; cbn; try discriminate. exact IHd. Qed.

Lemma unorm_zero_head (d u : uint) : unorm d = D0 u -> u = Nil.
Proof.
  unfold unorm. destruct (nzhead d) eqn:E; try discriminate.
  - now intros [= <-].
  - now apply nzhead_no_zero in E.
Qed.

Lemma to_uint_unorm (p : positive) : unorm (Pos.to_uint p) = Pos.to_uint p.
Proof.
  rewrite <- DecimalPos.Unsigned.to_of, DecimalPos.Unsigned.of_to. reflexivity.
Qed.

Lemma to_uint_head (p : positive) :
  match Pos.to_uint p with
  | Nil | D0 _ => False
  | _ => True
  end.
Proof.
  pose proof (to_uint_unorm p) as Hn.
  pose proof (DecimalPos.Unsigned.to_uint_nonzero p) as Hz.
  destruct (Pos.to_uint p) as [|u|u|u|u|u|u|u|u|u|u] eqn:E; try exact I.
  - now apply DecimalPos.Unsigned.to_uint_nonnil in E.
  - change (unorm (D0 u)) with (unorm u) in Hn.
    apply unorm_zero_head in Hn. subst u. now apply Hz.
Qed.

Lemma scan_digits_printed (d : uint) (rest : string) :
  match rest with
  | String c _ => digit_of c = None
  | EmptyString => True
  end ->
  scan_digits (NilEmpty.string_of_uint d ++ rest) = (d, rest).
Proof.
  intros Hrest. induction d; cbn; try (now rewrite IHd).
  destruct rest as [|c r]; [reflexivity|]. cbn. now rewrite Hrest.
Qed.

Lemma ends_number_digit (rest : string) :
  ends_number rest = true ->
  match rest with
  | String c _ => digit_of c = None
  | EmptyString => True
  end.
Proof.
  destruct rest as [|c r]; [trivial|]. cbn [ends_number].
  now destruct (digit_of c).
Qed.

Lemma ends_number_float (rest : string) :
  ends_number rest = true -> float_tail rest = false.
Proof.
  destruct rest as [|c r]; [reflexivity|]. cbn [ends_number].
  destruct (digit_of c); [discriminate|]. now destruct (float_tail _).
Qed.

Lemma scan_nat_printed (p : positive) (rest : string) :
  ends_number rest = true ->
  scan_nat (NilEmpty.string_of_uint (Pos.to_uint p) ++ rest)
  = Scanned (Z.pos p) rest.
Proof.
  intros Hrest. unfold scan_nat.
  rewrite scan_digits_printed by now apply ends_number_digit.
  rewrite (ends_number_float rest Hrest).
  assert (Hv : Z.of_uint (Pos.to_uint p) = Z.pos p).
  { unfold Z.of_uint. now rewrite DecimalPos.Unsigned.of_to. }
  pose proof (to_uint_head p) as Hh.
  destruct (Pos.to_uint p); try contradiction; now rewrite Hv.
Qed.

Lemma scan_number_printed (n : Z) (rest : string) :
  ends_number rest = true ->
  scan_number (encode_int n ++ rest) = Scanned n rest.
Proof.
  intros Hrest. unfold encode_int. destruct n as [|p|p]; cbn [Z.to_int NilEmpty.string_of_int].
  - cbn. unfold scan_nat. cbn.
    pose proof (ends_number_digit rest Hrest) as Hd.
    destruct rest as [|c r]; [reflexivity|]. cbn [scan_digits]. rewrite Hd.
    now rewrite (ends_number_float _ Hrest).
  - pose proof (to_uint_head p) as Hh.
    pose proof (scan_nat_printed p rest Hrest) as Hs.
    destruct (Pos.to_uint p); try contradiction; cbn in *; exact Hs.
  - cbn. rewrite scan_nat_printed by assumption. reflexivity.
Qed.

(* ---- induction on objects ---- *)

Lemma value_induction (P : value -> Prop) :
  P VNone ->
  (forall b, P (VBool b)) ->
  (forall n, P (VInt n)) ->
  (forall s, P (VStr s)) ->
  (forall l, Forall P l -> P (VList l)) ->
  (forall d, Forall (fun kx => P (snd kx)) d -> P (VDict d)) ->
  forall v, P v.
Proof.
  intros HN HB HI HS HL HD.
  fix IH 1. intros [| b | n | s | l | d].
  - exact HN.
  - apply HB.
  - apply HI.
  - apply HS.
  - apply HL. induction l as [|x l IHl]; constructor; [apply IH | exact IHl].
  - apply HD. induction d as [|[k x] d IHd]; constructor; [apply IH | exact IHd].
Qed.

(* ---- the shape of the written text ---- *)

Lemma dump_list (level : nat) (x : value) (xs : list value) :
  dump level (VList (x :: xs))
  = ("[" ++ newline_indent (S level) ++ dump (S level) x
      ++ dump_items (S level) xs ++ newline_indent level ++ "]")%string.
Proof.
  cbn [dump]. do 4 f_equal.
  induction xs as [|y ys IH]; [reflexivity|].
  cbn [dump_items]. now rewrite <- IH.
Qed.

Lemma dump_dict (level : nat) (k : string) (x : value)
  (d : list (string * value)) :
  dump level (VDict ((k, x) :: d))
  = ("{" ++ newline_indent (S level) ++ encode_string k ++ ": "
      ++ dump (S level) x ++ dump_members (S level) d
      ++ newline_indent level ++ "}")%string.
Proof.
  cbn [dump]. do 6 f_equal.
  induction d as [|[k' y] r IH]; [reflexivity|].
  cbn [dump_members]. now rewrite <- IH.
Qed.

Lemma skip_ws_indent (level : nat) (s : string) :
  skip_ws (indent_of level ++ s) = skip_ws s.
Proof. induction level as [|k IH]; [reflexivity | exact IH]. Qed.

Lemma skip_ws_newline_indent (level : nat) (s : string) :
  skip_ws (newline_indent level ++ s) = skip_ws s.
Proof. unfold newline_indent. cbn. apply skip_ws_indent. Qed.

Lemma opens_digits (d : uint) (rest : string) :
  d <> Nil -> opens (NilEmpty.string_of_uint d ++ rest).
Proof.
  intros Hd. destruct d; try contradiction; cbn;
    do 2 eexists; (split; [reflexivity|]); repeat split.
Qed.

Lemma opens_dump (level : nat) (v : value) (rest : string) :
  opens (dump level v ++ rest).
Proof.
  destruct v as [| [] | n | s | [|x l] | [|[k x] d]];
    try (cbn; do 2 eexists; (split; [reflexivity|]); now repeat split).
  unfold dump, encode_int. destruct n as [|p|p]; cbn.
  - do 2 eexists; (split; [reflexivity|]); now repeat split.
  - apply opens_digits. apply DecimalPos.Unsigned.to_uint_nonnil.
  - do 2 eexists; (split; [reflexivity|]); now repeat split.
Qed.

Lemma skip_ws_opens (s : string) : opens s -> skip_ws s = s.
Proof. intros (c & r & -> & Hws & _). cbn. now rewrite Hws. Qed.

(* ---- reading back one value ---- *)

Lemma scan_value_int (f : nat) (n : Z) (rest : string) :
  scan_value (S f) (encode_int n ++ rest)
  = scan_map VInt (scan_number (encode_int n ++ rest)).
Proof.
  unfold encode_int. destruct n as [|p|p]; cbn [Z.to_int NilEmpty.string_of_int];
    try reflexivity.
  pose proof (DecimalPos.Unsigned.to_uint_nonnil p) as Hp.
  destruct (Pos.to_uint p); try contradiction; reflexivity.
Qed.

Lemma weight_cons (x : value) (xs : list value) :
  weight (VList (x :: xs)) = S (S (weight x + pred (weight (VList xs)))).
Proof. reflexivity. Qed.

Lemma weight_member (k : string) (x : value) (d : list (string * value)) :
  weight (VDict ((k, x) :: d)) = S (S (weight x + pred (weight (VDict d)))).
Proof. reflexivity. Qed.

Lemma ends_number_items (level outer : nat) (xs : list value) (c : ascii)
  (rest : string) :
  ends_number (dump_items level xs ++ newline_indent outer ++ String c rest)
  = true.
Proof. destruct xs; reflexivity. Qed.

Lemma ends_number_members (level outer : nat) (d : list (string * value))
  (c : ascii) (rest : string) :
  ends_number (dump_members level d ++ newline_indent outer ++ String c rest)
  = true.
Proof. destruct d as [|[k x] d]; reflexivity. Qed.

Lemma skip_ws_plain (c : ascii) (s : string) :
  is_ws c = false -> skip_ws (String c s) = String c s.
Proof. intros H. cbn. now rewrite H. Qed.

Lemma scan_elems_written (xs : list value) :
  Forall reads_back xs ->
  forall x level outer rest fuel,
    reads_back x ->
    (weight (VList (x :: xs)) <= S fuel)%nat ->
    scan_elems fuel
      (dump level x ++ dump_items level xs
         ++ newline_indent outer ++ String "]" rest)
    = Scanned (x :: xs) rest.
Proof.
  induction 1 as [|y ys Hy Hys IH]; intros x level outer rest fuel Hx Hw;
    rewrite weight_cons in Hw;
    (destruct fuel as [|f]; [lia|]); cbn [scan_elems].
  - rewrite Hx; [|cbn in Hw; lia | reflexivity].
    cbn [dump_items String.append].
    rewrite skip_ws_newline_indent. reflexivity.
  - rewrite Hx; [|lia | apply ends_number_items].
    cbn [dump_items]. rewrite !append_assoc. cbn [String.append].
    rewrite (skip_ws_plain ","%char) by reflexivity.
    change (Ascii.eqb "," "]") with false. change (Ascii.eqb "," ",") with true.
    cbn beta iota. rewrite skip_ws_newline_indent.
    rewrite skip_ws_opens by apply opens_dump.
    rewrite IH; [reflexivity | exact Hy | lia].
Qed.

Lemma scan_key_written (k tail : string) :
  scan_string ((escape k ++ String dquote EmptyString) ++ tail)
  = Scanned k tail.
Proof. rewrite append_assoc. cbn [String.append]. apply scan_escaped. Qed.

Lemma scan_members_written (d : list (string * value)) :
  Forall (fun kx => reads_back (snd kx)) d ->
  forall k x level outer rest fuel,
    reads_back x ->
    (weight (VDict ((k, x) :: d)) <= S fuel)%nat ->
    scan_members fuel
      (encode_string k ++ ": " ++ dump level x ++ dump_members level d
         ++ newline_indent outer ++ String "}" rest)
    = Scanned ((k, x) :: d) rest.
Proof.
  induction 1 as [|[k' y] r Hy Hr IH]; intros k x level outer rest fuel Hx Hw;
    rewrite weight_member in Hw;
    (destruct fuel as [|f]; [lia|]); cbn [scan_members];
    unfold encode_string; cbn [String.append];
    change (Ascii.eqb dquote dquote) with true; cbn beta iota;
    rewrite scan_key_written; cbn [String.append];
    rewrite (skip_ws_plain ":"%char) by reflexivity;
    change (Ascii.eqb ":" ":") with true; cbn beta iota;
    change (skip_ws (String " " ?s)) with (skip_ws s);
    rewrite skip_ws_opens by apply opens_dump.
  - rewrite Hx; [|cbn in Hw; lia | reflexivity].
    cbn [dump_members String.append].
    rewrite skip_ws_newline_indent. reflexivity.
  - rewrite Hx; [|lia | apply ends_number_members].
    cbn [dump_members snd]. rewrite !append_assoc. cbn [String.append].
    rewrite (skip_ws_plain ","%char) by reflexivity.
    change (Ascii.eqb "," "}") with false. change (Ascii.eqb "," ",") with true.
    cbn beta iota. rewrite skip_ws_newline_indent.
    rewrite skip_ws_opens
      by (unfold encode_string; cbn; do 2 eexists;
          (split; [reflexivity|]); now repeat split).
    pose proof (IH k' y level outer rest f Hy) as IH'.
    cbn [String.append] in IH'.
    rewrite IH'; [reflexivity | cbn [snd] in Hw; lia].
Qed.

(* ---- objects with distinct keys ---- *)

Lemma dict_set_fresh (d : list (string * value)) (k : string) (v : value) :
  ~ In k (map fst d) -> dict_set d k v = d ++ [(k, v)].
Proof.
  induction d as [|[k' v'] d IH]; cbn; [reflexivity|]. intros H.
  destruct (String.eqb_spec k' k) as [->|_]; [exfalso; apply H; now left|].
  rewrite IH; [reflexivity|]. intros Hin. apply H. now right.
Qed.

Lemma dict_of_pairs_distinct (l : list (string * value)) :
  NoDup (map fst l) -> dict_of_pairs l = l.
Proof.
  unfold dict_of_pairs.
  enough (H : forall acc, NoDup (map fst (acc ++ l)) ->
                fold_left (fun d kv => dict_set d (fst kv) (snd kv)) l acc
                = acc ++ l) by (apply (H [])).
  induction l as [|[k v] l IH]; intros acc Hnd; cbn.
  - now rewrite app_nil_r.
  - rewrite dict_set_fresh.
    + rewrite IH; rewrite <- app_assoc; [reflexivity | exact Hnd].
    + rewrite map_app in Hnd. cbn in Hnd.
      apply NoDup_remove_2 in Hnd. intros Hin. apply Hnd.
      apply in_or_app. now left.
Qed.

Lemma distinct_keys_list (x : value) (xs : list value) :
  distinct_keys (VList (x :: xs)) <-> distinct_keys x /\ distinct_keys (VList xs).
Proof. reflexivity. Qed.

Lemma distinct_keys_dict (k : string) (x : value) (d : list (string * value)) :
  distinct_keys (VDict ((k, x) :: d)) ->
  distinct_keys x /\ distinct_keys (VDict d).
Proof.
  cbn. intros (Hnd & Hx & Hd). split; [exact Hx|]. split; [|exact Hd].
  now apply NoDup_cons_iff in Hnd.
Qed.

Lemma distinct_keys_NoDup (d : list (string * value)) :
  distinct_keys (VDict d) -> NoDup (map fst d).
Proof. cbn. tauto. Qed.

(** Every object with distinct keys is read back from its text. *)
Lemma scan_value_written (v : value) : distinct_keys v -> reads_back v.
Proof.
  induction v as [| b | n | s | l IHl | d IHd] using value_induction;
    intros Hk level rest fuel Hw Hrest;
    (destruct fuel as [|f]; [cbn in Hw; lia|]).
  - reflexivity.
  - destruct b; reflexivity.
  - cbn [dump]. rewrite scan_value_int, scan_number_printed by assumption.
    reflexivity.
  - cbn [dump scan_value]. unfold encode_string. cbn [String.append].
    change (Ascii.eqb dquote dquote) with true. cbn beta iota.
    rewrite scan_key_written. reflexivity.
  - destruct l as [|x xs]; [reflexivity|].
    rewrite dump_list. cbn [String.append scan_value].
    change (Ascii.eqb "[" dquote) with false.
    change (Ascii.eqb "[" "[") with true. cbn beta iota.
    rewrite !append_assoc. rewrite skip_ws_newline_indent.
    destruct (opens_dump (S level) x
                (dump_items (S level) xs ++ newline_indent level
                   ++ String "]" rest)%string)
      as (c & r & E & Hws & Hclose & _).
    cbn [String.append]. rewrite E, skip_ws_plain by exact Hws.
    rewrite Hclose. rewrite <- E.
    assert (Hall : Forall reads_back xs /\ reads_back x).
    { apply distinct_keys_list in Hk as [Hx Hxs].
      inversion IHl as [|? ? Hx' Hxs']; subst. split; [|now apply Hx'].
      clear - Hxs Hxs'. induction Hxs' as [|y ys Hy Hys IH]; constructor.
      - apply Hy. apply Hxs.
      - apply IH. apply Hxs. }
    destruct Hall as [Hxs Hx].
    rewrite (scan_elems_written xs Hxs x (S level) level rest f Hx);
      [reflexivity | exact Hw].
  - destruct d as [|[k x] d]; [reflexivity|].
    rewrite dump_dict. cbn [String.append scan_value].
    change (Ascii.eqb "{" dquote) with false.
    change (Ascii.eqb "{" "[") with false.
    change (Ascii.eqb "{" "{") with true. cbn beta iota.
    rewrite !append_assoc. rewrite skip_ws_newline_indent.
    unfold encode_string at 1. cbn [String.append].
    rewrite (skip_ws_plain dquote) by reflexivity.
    change (Ascii.eqb dquote "}") with false. cbn beta iota.
    assert (Hall : Forall (fun kx => reads_back (snd kx)) d /\ reads_back x).
    { pose proof (distinct_keys_dict _ _ _ Hk) as [Hx Hd].
      inversion IHd as [|? ? Hx' Hd']; subst. split; [|now apply Hx'].
      clear - Hd Hd'. induction Hd' as [|[k' y] r Hy Hr IH]; constructor.
      - apply Hy. now apply (distinct_keys_dict _ _ _ Hd).
      - apply IH. now apply (distinct_keys_dict _ _ _ Hd). }
    destruct Hall as [Hd Hx].
    pose proof (scan_members_written d Hd k x (S level) level rest f Hx Hw) as Hm.
    unfold encode_string in Hm. cbn [String.append] in Hm.
    rewrite !append_assoc in Hm. cbn [String.append] in Hm.
    rewrite !append_assoc. cbn [String.append].
    rewrite Hm. cbn [scan_map].
    rewrite dict_of_pairs_distinct by now apply distinct_keys_NoDup.
    reflexivity.
Qed.

(* ---- the bound on the recursion covers every written text ---- *)

Lemma append_empty (s : string) : (s ++ "")%string = s.
Proof. induction s as [|c s IH]; cbn; [reflexivity | now rewrite IH]. Qed.

Lemma encode_int_length (n : Z) : (1 <= String.length (encode_int n))%nat.
Proof.
  unfold encode_int.
  assert (H : forall p, (1 <= String.length
                            (NilEmpty.string_of_uint (Pos.to_uint p)))%nat).
  { intros p. pose proof (DecimalPos.Unsigned.to_uint_nonnil p) as Hp.
    destruct (Pos.to_uint p); try contradiction; cbn; lia. }
  destruct n as [|p|p]; cbn; [lia | apply H | lia].
Qed.

Lemma dump_items_length (level : nat) (xs : list value) :
  Forall fits xs ->
  (pred (weight (VList xs)) <= String.length (dump_items level xs))%nat.
Proof.
  induction 1 as [|y ys Hy Hys IH]; [cbn; lia|].
  rewrite weight_cons. cbn [dump_items pred].
  rewrite !append_length. specialize (Hy level). cbn [String.length]. lia.
Qed.

Lemma dump_members_length (level : nat) (d : list (string * value)) :
  Forall (fun kx => fits (snd kx)) d ->
  (pred (weight (VDict d)) <= String.length (dump_members level d))%nat.
Proof.
  induction 1 as [|[k y] r Hy Hr IH]; [cbn; lia|].
  rewrite weight_member. cbn [dump_members pred].
  rewrite !append_length. specialize (Hy level). cbn [String.length snd] in *.
  lia.
Qed.

Lemma weight_fits (v : value) : fits v.
Proof.
  induction v as [| b | n | s | l IHl | d IHd] using value_induction; intros level.
  - cbn; lia.
  - destruct b; cbn; lia.
  - cbn [weight dump]. apply encode_int_length.
  - cbn [weight dump]. unfold encode_string. cbn. lia.
  - destruct l as [|x xs]; [cbn; lia|].
    rewrite dump_list, weight_cons. inversion IHl as [|? ? Hx Hxs]; subst.
    rewrite !append_length. cbn [String.length].
    pose proof (dump_items_length (S level) xs Hxs).
    specialize (Hx (S level)). lia.
  - destruct d as [|[k x] d]; [cbn; lia|].
    rewrite dump_dict, weight_member. inversion IHd as [|? ? Hx Hd]; subst.
    rewrite !append_length. cbn [String.length].
    pose proof (dump_members_length (S level) d Hd).
    specialize (Hx (S level)). cbn [snd] in Hx. lia.
Qed.

(** Writing an object and reading the text back gives the object. *)
Lemma loads_dumps (v : value) :
  distinct_keys v -> loads (dumps v) = Some v.
Proof.
  intros Hk. unfold loads, dumps.
  pose proof (opens_dump 0 v EmptyString) as Ho. rewrite append_empty in Ho.
  rewrite (skip_ws_opens _ Ho).
  rewrite <- (append_empty (dump 0 v)) at 2.
  rewrite (scan_value_written v Hk 0%nat EmptyString); [reflexivity| |reflexivity].
  pose proof (weight_fits v 0%nat). lia.
Qed.

(* ---- the bound on the recursion is never reached ---- *)

Lemma scan_map_scanned {A B} (f : A -> B) (c : scan A) (b : B) (r : string) :
  scan_map f c = Scanned b r -> exists a, c = Scanned a r /\ b = f a.
Proof. destruct c; cbn; try discriminate. intros [= <- <-]. eauto. Qed.

Lemma scan_map_cutoff {A B} (f : A -> B) (c : scan A) :
  scan_map f c = Cutoff -> c = Cutoff.
Proof. destruct c; cbn; congruence. Qed.

Lemma skip_ws_length (s : string) :
  (String.length (skip_ws s) <= String.length s)%nat.
Proof.
  induction s as [|c s IH]; cbn; [lia|]. destruct (is_ws c); cbn; lia.
Qed.

Lemma scan_string_shorter (n : nat) :
  forall s k r, (String.length s <= n)%nat ->
    scan_string s = Scanned k r ->
    (String.length r < String.length s)%nat.
Proof.
  induction n as [|n IH]; intros [|c s] k r Hn; cbn [scan_string];
    try discriminate; cbn [String.length] in Hn; try lia.
  destruct (nat_of_ascii c =? 34)%nat.
  { intros [= <- <-]. cbn. lia. }
  destruct (nat_of_ascii c =? 92)%nat.
  - destruct s as [|e s1]; [discriminate|].
    destruct (simple_escape e).
    + intros H. apply scan_map_scanned in H as (k' & H & _).
      apply IH in H; cbn [String.length] in *; lia.
    + destruct (nat_of_ascii e =? 117)%nat; [|discriminate].
      destruct s1 as [|h1 [|h2 [|h3 [|h4 s2]]]]; try discriminate.
      destruct (hex4 h1 h2 h3 h4) as [m|]; [|discriminate].
      destruct (m <? 256)%nat; [|discriminate].
      intros H. apply scan_map_scanned in H as (k' & H & _).
      apply IH in H; cbn [String.length] in *; lia.
  - destruct (nat_of_ascii c <? 32)%nat; [discriminate|].
    intros H. apply scan_map_scanned in H as (k' & H & _).
    apply IH in H; cbn [String.length] in *; lia.
Qed.

Lemma scan_string_never_cutoff (n : nat) :
  forall s, (String.length s <= n)%nat -> scan_string s <> Cutoff.
Proof.
  induction n as [|n IH]; intros [|c s] Hn; cbn [scan_string];
    try discriminate; cbn [String.length] in Hn; try lia.
  destruct (nat_of_ascii c =? 34)%nat; [discriminate|].
  destruct (nat_of_ascii c =? 92)%nat.
  - destruct s as [|e s1]; [discriminate|].
    destruct (simple_escape e).
    + intros H. apply scan_map_cutoff in H. revert H. apply IH.
      cbn [String.length] in *; lia.
    + destruct (nat_of_ascii e =? 117)%nat; [|discriminate].
      destruct s1 as [|h1 [|h2 [|h3 [|h4 s2]]]]; try discriminate.
      destruct (hex4 h1 h2 h3 h4) as [m|]; [|discriminate].
      destruct (m <? 256)%nat; [|discriminate].
      intros H. apply scan_map_cutoff in H. revert H. apply IH.
      cbn [String.length] in *; lia.
  - destruct (nat_of_ascii c <? 32)%nat; [discriminate|].
    intros H. apply scan_map_cutoff in H. revert H. apply IH. lia.
Qed.

Lemma scan_digits_length (s : string) :
  (String.length (snd (scan_digits s)) <= String.length s)%nat
  /\ (fst (scan_digits s) <> Nil ->
      (String.length (snd (scan_digits s)) < String.length s)%nat).
Proof.
  induction s as [|c s [IH1 IH2]]; cbn [scan_digits]; [cbn; split; [lia|congruence]|].
  destruct (digit_of c) as [k|]; [|cbn; split; [lia|congruence]].
  destruct (scan_digits s) as [d r]. cbn [fst snd String.length] in *.
  split; lia.
Qed.

Lemma scan_nat_shorter (s : string) (n : Z) (r : string) :
  scan_nat s = Scanned n r -> (String.length r < String.length s)%nat.
Proof.
  unfold scan_nat. pose proof (scan_digits_length s) as [_ H].
  destruct (scan_digits s) as [d r']. cbn [fst snd] in H.
  destruct d as [|[]| | | | | | | | |]; try discriminate;
    destruct (float_tail r'); try discriminate;
    intros [= _ <-]; apply H; discriminate.
Qed.

Lemma scan_nat_never_cutoff (s : string) : scan_nat s <> Cutoff.
Proof.
  unfold scan_nat. destruct (scan_digits s) as [d r'].
  destruct d as [|[]| | | | | | | | |]; try discriminate;
    destruct (float_tail r'); discriminate.
Qed.

Lemma scan_number_shorter (s : string) (n : Z) (r : string) :
  scan_number s = Scanned n r -> (String.length r < String.length s)%nat.
Proof.
  unfold scan_number. destruct s as [|c s]; [apply scan_nat_shorter|].
  destruct (Ascii.eqb_spec c "-") as [->|Hne].
  - intros H. apply scan_map_scanned in H as (m & H & _).
    apply scan_nat_shorter in H. cbn. lia.
  - intros H.
    assert (H' : scan_nat (String c s) = Scanned n r).
    { revert H. destruct c as [[] [] [] [] [] [] [] []]; try (intros H; exact H).
      contradiction Hne. reflexivity. }
    now apply scan_nat_shorter in H'.
Qed.

Lemma scan_number_never_cutoff (s : string) : scan_number s <> Cutoff.
Proof.
  unfold scan_number. destruct s as [|c s]; [apply scan_nat_never_cutoff|].
  destruct c as [[] [] [] [] [] [] [] []];
    try apply scan_nat_never_cutoff.
  intros H. apply scan_map_cutoff in H. revert H. apply scan_nat_never_cutoff.
Qed.

Lemma strip_prefix_length (p s r : string) :
  strip_prefix p s = Some r ->
  (String.length r + String.length p = String.length s)%nat.
Proof.
  revert s; induction p as [|a p IH]; intros [|b s]; cbn;
    try discriminate; try (intros [= <-]; cbn; lia).
  destruct (Ascii.eqb a b); [|discriminate]. intros H. apply IH in H. lia.
Qed.

Lemma scan_literal_shorter (p : string) (v w : value) (s r : string) :
  p <> EmptyString -> scan_literal p v s = Scanned w r ->
  (String.length r < String.length s)%nat.
Proof.
  unfold scan_literal. intros Hp.
  destruct (strip_prefix p s) as [r'|] eqn:E; [|discriminate].
  intros [= _ <-]. apply strip_prefix_length in E.
  destruct p; [contradiction | cbn in E; lia].
Qed.

Lemma scan_literal_never_cutoff (p : string) (v : value) (s : string) :
  scan_literal p v s <> Cutoff.
Proof. unfold scan_literal. destruct (strip_prefix p s); discriminate. Qed.

Ltac shorter_skip r :=
  let H := fresh "Hskip" in
  pose proof (skip_ws_length r) as H;
  destruct (skip_ws r) eqn:?; [discriminate|]; cbn [String.length] in H.

Lemma scan_shorter (fuel : nat) :
  (forall s v r, scan_value fuel s = Scanned v r ->
                 (String.length r < String.length s)%nat)
  /\ (forall s l r, scan_elems fuel s = Scanned l r ->
                    (String.length r < String.length s)%nat)
  /\ (forall s l r, scan_members fuel s = Scanned l r ->
                    (String.length r < String.length s)%nat).
Proof.
  induction fuel as [|f (IHv & IHe & IHm)];
    [repeat split; intros; discriminate|].
  split; [|split].
  - intros [|c s] v r; cbn [scan_value]; [discriminate|].
    cbn [String.length].
    destruct (Ascii.eqb c dquote).
    { intros H. apply scan_map_scanned in H as (k & H & _).
      apply (scan_string_shorter (String.length s)) in H; lia. }
    destruct (Ascii.eqb c "[").
    { shorter_skip s. destruct (Ascii.eqb _ "]").
      - intros [= _ <-]. lia.
      - intros H. apply scan_map_scanned in H as (l & H & _).
        apply IHe in H. cbn [String.length] in H. lia. }
    destruct (Ascii.eqb c "{").
    { shorter_skip s. destruct (Ascii.eqb _ "}").
      - intros [= _ <-]. lia.
      - intros H. apply scan_map_scanned in H as (l & H & _).
        apply IHm in H. cbn [String.length] in H. lia. }
    destruct (Ascii.eqb c "n").
    { intros H. apply scan_literal_shorter in H; [exact H | discriminate]. }
    destruct (Ascii.eqb c "t").
    { intros H. apply scan_literal_shorter in H; [exact H | discriminate]. }
    destruct (Ascii.eqb c "f").
    { intros H. apply scan_literal_shorter in H; [exact H | discriminate]. }
    intros H. apply scan_map_scanned in H as (n & H & _).
    now apply scan_number_shorter in H.
  - intros s l r; cbn [scan_elems].
    destruct (scan_value f s) as [v r0| |] eqn:Ev; try discriminate.
    apply IHv in Ev. shorter_skip r0.
    destruct (Ascii.eqb _ "]"); [intros [= _ <-]; lia|].
    destruct (Ascii.eqb _ ","); [|discriminate].
    intros H. apply scan_map_scanned in H as (l' & H & _).
    apply IHe in H. pose proof (skip_ws_length s0). lia.
  - intros [|c s] l r; cbn [scan_members]; [discriminate|].
    cbn [String.length].
    destruct (Ascii.eqb c dquote); [|discriminate].
    destruct (scan_string s) as [k r1| |] eqn:Ek; try discriminate.
    apply (scan_string_shorter (String.length s)) in Ek; [|lia].
    shorter_skip r1. destruct (Ascii.eqb _ ":"); [|discriminate].
    destruct (scan_value f (skip_ws s0)) as [v r3| |] eqn:Ev; try discriminate.
    apply IHv in Ev. pose proof (skip_ws_length s0) as Hs0.
    shorter_skip r3.
    destruct (Ascii.eqb _ "}"); [intros [= _ <-]; lia|].
    destruct (Ascii.eqb _ ","); [|discriminate].
    intros Hm. apply scan_map_scanned in Hm as (l' & Hm & _).
    apply IHm in Hm. pose proof (skip_ws_length s1). lia.
Qed.

(** With a bound above twice the length of the text, no scanner stops for
    lack of rounds. *)
Lemma scan_never_cutoff (fuel : nat) :
  (forall s, (2 * String.length s + 1 <= fuel)%nat ->
             scan_value fuel s <> Cutoff)
  /\ (forall s, (2 * String.length s + 2 <= fuel)%nat ->
                scan_elems fuel s <> Cutoff)
  /\ (forall s, (2 * String.length s + 1 <= fuel)%nat ->
                scan_members fuel s <> Cutoff).
Proof.
  induction fuel as [|f (IHv & IHe & IHm)];
    [repeat split; intros; lia|].
  split; [|split].
  - intros [|c s] Hf; cbn [scan_value]; [discriminate|].
    cbn [String.length] in Hf.
    destruct (Ascii.eqb c dquote).
    { intros H. apply scan_map_cutoff in H. revert H.
      now apply (scan_string_never_cutoff (String.length s)). }
    destruct (Ascii.eqb c "[").
    { shorter_skip s. destruct (Ascii.eqb _ "]"); [discriminate|].
      intros H. apply scan_map_cutoff in H. revert H. apply IHe.
      cbn [String.length]. lia. }
    destruct (Ascii.eqb c "{").
    { shorter_skip s. destruct (Ascii.eqb _ "}"); [discriminate|].
      intros H. apply scan_map_cutoff in H. revert H. apply IHm.
      cbn [String.length]. lia. }
    destruct (Ascii.eqb c "n"); [apply scan_literal_never_cutoff|].
    destruct (Ascii.eqb c "t"); [apply scan_literal_never_cutoff|].
    destruct (Ascii.eqb c "f"); [apply scan_literal_never_cutoff|].
    intros H. apply scan_map_cutoff in H. revert H.
    apply scan_number_never_cutoff.
  - intros s Hf; cbn [scan_elems].
    destruct (scan_value f s) as [v r0| |] eqn:Ev; try discriminate.
    + apply (proj1 (scan_shorter f)) in Ev. shorter_skip r0.
      destruct (Ascii.eqb _ "]"); [discriminate|].
      destruct (Ascii.eqb _ ","); [|discriminate].
      intros H. apply scan_map_cutoff in H. revert H. apply IHe.
      pose proof (skip_ws_length s0). lia.
    + exfalso. revert Ev. apply IHv. lia.
  - intros [|c s] Hf; cbn [scan_members]; [discriminate|].
    cbn [String.length] in Hf.
    destruct (Ascii.eqb c dquote); [|discriminate].
    destruct (scan_string s) as [k r1| |] eqn:Ek; try discriminate.
    + apply (scan_string_shorter (String.length s)) in Ek; [|lia].
      shorter_skip r1. destruct (Ascii.eqb _ ":"); [|discriminate].
      pose proof (skip_ws_length s0) as Hs0.
      destruct (scan_value f (skip_ws s0)) as [v r3| |] eqn:Ev; try discriminate.
      * apply (proj1 (scan_shorter f)) in Ev. shorter_skip r3.
        destruct (Ascii.eqb _ "}"); [discriminate|].
        destruct (Ascii.eqb _ ","); [|discriminate].
        intros Hm. apply scan_map_cutoff in Hm. revert Hm. apply IHm.
        pose proof (skip_ws_length s1). lia.
      * exfalso. revert Ev. apply IHv. lia.
    + exfalso. revert Ek.
      now apply (scan_string_never_cutoff (String.length s)).
Qed.

(** [loads] never gives up for lack of rounds: a text it rejects is
    malformed, or is a value followed by something else. *)
Lemma loads_never_cutoff (s : string) :
  scan_value (2 * String.length s + 2) (skip_ws s) <> Cutoff.
Proof.
  apply (proj1 (scan_never_cutoff _)). pose proof (skip_ws_length s). lia.
Qed.

End DataFile.

(** ** The views *)

Section Views.
Import Py World Pomodoro Log.

(* ---- the trace ---- *)


Lemma emit_all_cons (e : event) (l : list event) (w : world) :
  emit_all (e :: l) w = emit_all l (emit e w).
Proof. reflexivity. Qed.

Lemma trace_emit_all (l : list event) (w : world) :
  trace (emit_all l w) = trace w ++ l.
Proof.
  revert w; induction l as [|e l IH]; intros w.
  - cbn. now rewrite app_nil_r.
  - rewrite emit_all_cons, IH. cbn. now rewrite <- app_assoc.
Qed.

(* ---- views on a well-formed log ---- *)




Lemma for_each_history_lines (l : list session) (k : Z) (t : timer) (w : world) :
  for_each (enumerate k (map to_value l)) (fun item =>
      let (i, session) := item : Z * value in
      task <- lift (getitem session "task") ;;
      print (OutItem i task) ;;;
      date <- lift (getitem session "date") ;;
      time <- lift (getitem session "time") ;;
      duration <- lift (getitem session "duration") ;;
      print (OutHistoryDetail date time duration)) (t, w)
  = (Ok tt, (t, emit_all
       (flat_map (fun item : Z * session =>
              let (i, s) := item in
              [OutItem i (VStr (task s));
               OutHistoryDetail (VStr (date s)) (VStr (time s))
                                      (VInt (duration s))])
           (enumerate k l)) w)).
Proof.
  revert k w; induction l as [|s l IH]; intros k w; [reflexivity|].
  cbn [map enumerate for_each flat_map].
  unfold bind at 1. cbn. rewrite IH. reflexivity.
Qed.

Lemma map_to_value_nil (l : list session) : map to_value l = [] -> l = [].
Proof. destruct l; [reflexivity | discriminate]. Qed.


(* ---- slices ---- *)

Lemma slice_from_map {A B} (f : A -> B) (k : Z) (l : list A) :
  slice_from k (map f l) = map f (slice_from k l).
Proof. unfold slice_from. now rewrite length_map, skipn_map. Qed.

Lemma slice_from_negative {A} (k : Z) (l : list A) :
  0 < k -> slice_from (- k) l = last_n (Z.to_nat k) l.
Proof.
  intros Hk. unfold slice_from, last_n.
  destruct (Z.ltb_spec (- k) 0) as [_|]; [|lia].
  f_equal. lia.
Qed.

Lemma slice_from_zero {A} (l : list A) : slice_from 0 l = l.
Proof.
  unfold slice_from. cbn. now rewrite Z.min_l by lia.
Qed.

Lemma slice_from_positive {A} (k : Z) (l : list A) :
  0 <= k -> slice_from k l = skipn (Z.to_nat k) l.
Proof.
  intros Hk. unfold slice_from.
  destruct (Z.ltb_spec k 0) as [|_]; [lia|].
  destruct (Z.le_gt_cases k (Z.of_nat (List.length l))) as [Hle|Hgt].
  - now rewrite Z.min_l by lia.
  - rewrite Z.min_r by lia. rewrite Nat2Z.id.
    rewrite skipn_all. symmetry. apply skipn_all2. lia.
Qed.

Lemma rev_last_n {A} (n : nat) (l : list A) :
  List.rev (last_n n l) = firstn n (List.rev l).
Proof.
  unfold last_n. rewrite <- (firstn_skipn (List.length l - n) l) at 3.
  rewrite rev_app_distr.
  destruct (Nat.le_gt_cases (List.length l) n) as [Hle|Hgt].
  - replace (List.length l - n)%nat with 0%nat by lia. cbn.
    rewrite app_nil_r. symmetry. apply firstn_all2. rewrite length_rev. lia.
  - rewrite firstn_app.
    replace (n - List.length (List.rev (skipn (List.length l - n) l)))%nat
      with 0%nat by (rewrite length_rev, length_skipn; lia).
    cbn. rewrite app_nil_r. symmetry. apply firstn_all2.
    rewrite length_rev, length_skipn. lia.
Qed.

Lemma last_n_all {A} (n : nat) (l : list A) :
  (List.length l <= n)%nat -> last_n n l = l.
Proof.
  intros H. unfold last_n. now replace (List.length l - n)%nat with 0%nat by lia.
Qed.

Lemma recent_log (l : list session) (limit : Z) :
  recent (log_value l) limit
  = Ok (map to_value (List.rev (slice_from (- limit) l))).
Proof.
  unfold recent, log_value. cbn. now rewrite slice_from_map, map_rev.
Qed.

Lemma show_history_log (l : list session) (limit : Z) (t : timer) (w : world) :
  l <> [] ->
  show_history limit (set_sessions (log_value l) t, w)
  = (Ok tt, (set_sessions (log_value l) t,
             emit_all (OutHistoryHeader limit
                        :: history_lines (List.rev (slice_from (- limit) l))) w)).
Proof.
  intros Hne. unfold show_history. mrun. cbn [sessions set_sessions].
  replace (truthy (log_value l)) with true
    by (destruct l; [contradiction | reflexivity]).
  cbn [negb]. rewrite recent_log.
  pose proof (for_each_history_lines (List.rev (slice_from (- limit) l)) 1
                (set_sessions (log_value l) t)) as Hfor.
  revert Hfor. mrun. intros Hfor; rewrite Hfor.
  rewrite emit_all_cons. reflexivity.
Qed.

(** C7. For a positive limit the history view shows the last [limit]
    records of the log, most recent first, and all of them when the log is
    shorter: of fifteen records and a limit of ten, the fifteenth down to the
    sixth; of three records, all three reversed. *)
Theorem history_view_most_recent_first
  (l : list session) (limit : Z) (t : timer) (w : world) :
  0 < limit ->
  let shown := List.rev (last_n (Z.to_nat limit) l) in
  recent (log_value l) limit = Ok (map to_value shown)
  /\ shown = firstn (Z.to_nat limit) (List.rev l)
  /\ (Z.of_nat (List.length l) <= limit -> shown = List.rev l)
  /\ (l <> [] ->
      show_history limit (set_sessions (log_value l) t, w)
      = (Ok tt, (set_sessions (log_value l) t,
                 emit_all (OutHistoryHeader limit :: history_lines shown) w)))
  /\ (forall s1 s2 s3 s4 s5 s6 s7 s8 s9 s10 s11 s12 s13 s14 s15,
        recent (log_value [s1; s2; s3; s4; s5; s6; s7; s8; s9; s10;
                           s11; s12; s13; s14; s15]) 10
        = Ok (map to_value [s15; s14; s13; s12; s11; s10; s9; s8; s7; s6]))
  /\ (forall s1 s2 s3,
        recent (log_value [s1; s2; s3]) 10 = Ok (map to_value [s3; s2; s1])).
Proof.
  intros Hpos shown. unfold shown.
  repeat split.
  - now rewrite recent_log, slice_from_negative.
  - apply rev_last_n.
  - intros Hle. rewrite last_n_all by lia. reflexivity.
  - intros Hne. rewrite show_history_log by assumption.
    now rewrite slice_from_negative.
Qed.

(** C10. On a log that is not empty, a limit of zero makes the history view
    show the whole log, most recent first, and a negative limit makes it show
    the records from index [- limit] on, most recent first. *)
Theorem history_view_nonpositive_limit
  (l : list session) (t : timer) (w : world) :
  l <> [] ->
  recent (log_value l) 0 = Ok (map to_value (List.rev l))
  /\ show_history 0 (set_sessions (log_value l) t, w)
     = (Ok tt, (set_sessions (log_value l) t,
                emit_all (OutHistoryHeader 0 :: history_lines (List.rev l)) w))
  /\ (forall limit, limit < 0 ->
        let shown := List.rev (skipn (Z.to_nat (- limit)) l) in
        recent (log_value l) limit = Ok (map to_value shown)
        /\ show_history limit (set_sessions (log_value l) t, w)
           = (Ok tt, (set_sessions (log_value l) t,
                      emit_all (OutHistoryHeader limit :: history_lines shown) w))).
Proof.
  intros Hne. split; [|split].
  - rewrite recent_log. cbn [Z.opp]. now rewrite slice_from_zero.
  - rewrite show_history_log by assumption. cbn [Z.opp].
    now rewrite slice_from_zero.
  - intros limit Hneg shown. unfold shown. split.
    + rewrite recent_log. now rewrite slice_from_positive by lia.
    + rewrite show_history_log by assumption.
      now rewrite slice_from_positive by lia.
Qed.

(* ---- the order on strings ---- *)

Lemma string_compare_refl (a : string) : (a ?= a)%string = Eq.
Proof.
  induction a as [|c a IH]; [reflexivity|]. cbn.
  unfold Ascii.compare. now rewrite N.compare_refl.
Qed.



Lemma string_ltb_irrefl (a : string) : (a <? a)%string = false.
Proof. unfold String.ltb. now rewrite string_compare_refl. Qed.


(* ---- sorting the dates ---- *)










(* ---- the per-day mapping ---- *)













(* ---- the busiest day ---- *)










End Views.

(** ** One session *)

Section Session.
Import Py World Pomodoro Log.

(* ---- steps that only talk ---- *)

Lemma same_setting_refl (a : state) : same_setting a a.
Proof. repeat split. Qed.

Lemma same_setting_trans (a b c : state) :
  same_setting a b -> same_setting b c -> same_setting a c.
Proof.
  unfold same_setting. intros (?&?&?&?&?) (?&?&?&?&?).
  repeat split; congruence.
Qed.

Lemma steady_refl (a : state) : steady a a.
Proof. repeat split. Qed.

Lemma steady_trans (a b c : state) : steady a b -> steady b c -> steady a c.
Proof.
  unfold steady. intros (S1&?&?&?) (S2&?&?&?).
  split; [exact (same_setting_trans _ _ _ S1 S2)|]. repeat split; congruence.
Qed.

Lemma talks_refl (kind : event -> bool) (a : state) : talks kind a a.
Proof.
  split; [apply steady_refl|]. exists []. now rewrite app_nil_r.
Qed.

Lemma talks_trans (kind : event -> bool) (a b c : state) :
  talks kind a b -> talks kind b c -> talks kind a c.
Proof.
  intros (S1 & n1 & T1 & F1) (S2 & n2 & T2 & F2).
  split; [exact (steady_trans _ _ _ S1 S2)|].
  exists (n1 ++ n2). rewrite T2, T1, app_assoc. split; [reflexivity|].
  apply Forall_app. now split.
Qed.

Lemma talks_weaken (k k' : event -> bool) (a b : state) :
  (forall e, k e = true -> k' e = true) -> talks k a b -> talks k' a b.
Proof.
  intros Hk (S1 & n & T & F). split; [exact S1|]. exists n. split; [exact T|].
  eapply Forall_impl; [|exact F]. exact Hk.
Qed.

Lemma emit_talks (kind : event -> bool) (e : event) (t : timer) (w : world) :
  kind e = true -> talks kind (t, w) (t, emit e w).
Proof.
  intros H. split; [repeat split|]. exists [e]. split; [reflexivity|].
  now constructor.
Qed.

Lemma sleep_talks (kind : event -> bool) (d : Z) (t : timer) (w : world) :
  talks kind (t, w) (t, time_sleep d w).
Proof.
  split; [repeat split|]. exists []. cbn. now rewrite app_nil_r.
Qed.

(* ---- sounds ---- *)

Lemma beeps_talk (e : event) (d : Z) (l : list Z) (t : timer) (w : world) :
  sound e = true ->
  exists w', for_each l (fun _ => print e ;;; sleep d) (t, w) = (Ok tt, (t, w'))
             /\ talks sound (t, w) (t, w').
Proof.
  intros He. revert w; induction l as [|x l IH]; intros w.
  - exists w. split; [reflexivity | apply talks_refl].
  - destruct (IH (time_sleep d (emit e w))) as (w' & E & T).
    exists w'. cbn [for_each]. mrun. revert E. mrun. intros ->.
    split; [reflexivity|].
    eapply talks_trans; [|exact T].
    eapply talks_trans; [apply (emit_talks sound e t w He)|apply sleep_talks].
Qed.

Lemma play_beep_talks (sound_type : string) (t : timer) (w : world) :
  exists w', _play_beep sound_type (t, w) = (Ok tt, (t, w'))
             /\ talks sound (t, w) (t, w').
Proof.
  unfold _play_beep. mrun.
  destruct (windows w);
    destruct (sound_type =? "start")%string;
    try (eexists; split; [reflexivity | now apply emit_talks]);
    destruct (sound_type =? "complete")%string;
    try (apply beeps_talk; reflexivity);
    destruct (sound_type =? "break_end")%string;
    try (eexists; split; [reflexivity | now apply emit_talks]);
    (eexists; split; [reflexivity | apply talks_refl]).
Qed.

Lemma set_tts_engine_talks (kind : event -> bool) (t : timer) (w : world) :
  talks kind (t, w) (set_tts_engine t, w).
Proof.
  split; [repeat split|]. exists []. cbn. now rewrite app_nil_r.
Qed.

Lemma play_tts_talks (sound_type : string) (t : timer) (w : world) :
  exists t' w', _play_tts sound_type (t, w) = (Ok tt, (t', w'))
                /\ talks sound (t, w) (t', w').
Proof.
  unfold _play_tts. mrun. destruct (tts_available w) eqn:Etts; cbn [negb]; mrun.
  - destruct (tts_engine t); mrun;
      destruct (tts_message sound_type =? "")%string;
      do 2 eexists; (split; [reflexivity|]);
      try apply talks_refl; try apply set_tts_engine_talks;
      try (now apply emit_talks).
    eapply talks_trans; [apply set_tts_engine_talks | now apply emit_talks].
  - destruct (play_beep_talks sound_type t (emit OutTtsFallback w))
      as (w' & E & T).
    exists t, w'. rewrite E. split; [reflexivity|].
    eapply talks_trans; [|exact T]. now apply emit_talks.
Qed.

Lemma play_sound_talks (sound_type : string) (t : timer) (w : world) :
  exists t' w', play_sound sound_type (t, w) = (Ok tt, (t', w'))
                /\ talks sound (t, w) (t', w').
Proof.
  unfold play_sound. mrun. destruct (sound_mode t) as [m|].
  - destruct (m =? "beeps")%string.
    + destruct (play_beep_talks sound_type t w) as (w' & E & T). now exists t, w'.
    + destruct (m =? "tts")%string; [apply play_tts_talks|].
      exists t, w. split; [reflexivity | apply talks_refl].
  - exists t, w. split; [reflexivity | apply talks_refl].
Qed.

(* ---- the sound menu ---- *)

Lemma input_cases (prompt : string) (t : timer) (w : world) :
  (stdin w = [] /\ input prompt (t, w) = (Raise EOFError, (t, emit (Ask prompt) w)))
  \/ (exists line rest,
        stdin w = line :: rest
        /\ input prompt (t, w)
           = (Ok line, (t, emit (Answer line)
                             (set_stdin rest (emit (Ask prompt) w))))).
Proof.
  unfold input. cbn [fst snd emit stdin].
  destruct (stdin w) as [|line rest]; [left | right]; eauto.
Qed.

Lemma asked_talks (prompt : string) (t : timer) (w : world) :
  talks dialogue (t, w) (t, emit (Ask prompt) w).
Proof. now apply emit_talks. Qed.

Lemma answered_talks (prompt line : string) (rest : list string)
  (t : timer) (w : world) :
  talks dialogue (t, w)
    (t, emit (Answer line) (set_stdin rest (emit (Ask prompt) w))).
Proof.
  split; [repeat split|]. exists [Ask prompt; Answer line]. cbn.
  rewrite <- app_assoc. split; [reflexivity|]. repeat constructor.
Qed.

Lemma set_sound_mode_talks (kind : event -> bool) (m : string)
  (t : timer) (w : world) :
  talks kind (t, w) (set_sound_mode m t, w).
Proof.
  split; [repeat split|]. exists []. cbn. now rewrite app_nil_r.
Qed.

Lemma choose_sound_rounds_talks (lines : list string) (t : timer) (w : world)
  (r : result unit) (st' : state) :
  choose_sound_rounds lines (t, w) = (r, st') ->
  talks dialogue (t, w) st' /\ (r = Ok tt \/ r = Raise EOFError).
Proof.
  revert t w; induction lines as [|x lines IH]; intros t w;
    cbn [choose_sound_rounds]; unfold bind at 1;
    destruct (input_cases "Choose sound mode (1/2/3): " t w)
      as [[_ ->] | (line & rest & _ & ->)].
  - intros [= <- <-]. split; [apply asked_talks | now right].
  - mrun. intros [= <- <-]. split; [apply answered_talks | now left].
  - intros [= <- <-]. split; [apply asked_talks | now right].
  - pose proof (answered_talks "Choose sound mode (1/2/3): " line rest t w) as T0.
    set (w1 := emit (Answer line) _) in *.
    destruct (strip line =? "1")%string.
    { mrun. intros [= <- <-]. split; [|now left].
      eapply talks_trans; [exact T0|].
      eapply talks_trans; [apply set_sound_mode_talks | now apply emit_talks]. }
    destruct (strip line =? "2")%string.
    { mrun. destruct (tts_available w1).
      - mrun. intros [= <- <-]. split; [|now left].
        eapply talks_trans; [exact T0|].
        eapply talks_trans; [apply set_sound_mode_talks | now apply emit_talks].
      - mrun. intros H. apply IH in H as [T H]. split; [|exact H].
        eapply talks_trans; [exact T0|].
        eapply talks_trans; [|exact T]. now apply emit_talks. }
    destruct (strip line =? "3")%string.
    { mrun. intros [= <- <-]. split; [|now left].
      eapply talks_trans; [exact T0|].
      eapply talks_trans; [apply set_sound_mode_talks | now apply emit_talks]. }
    mrun. intros H. apply IH in H as [T H]. split; [|exact H].
    eapply talks_trans; [exact T0|].
    eapply talks_trans; [|exact T]. now apply emit_talks.
Qed.

Lemma choose_sound_mode_talks (t : timer) (w : world)
  (r : result unit) (st' : state) :
  choose_sound_mode (t, w) = (r, st') ->
  talks dialogue (t, w) st' /\ (r = Ok tt \/ r = Raise EOFError).
Proof.
  unfold choose_sound_mode. mrun. intros H.
  apply choose_sound_rounds_talks in H as [T H]. split; [|exact H].
  eapply talks_trans; [|exact T]. now apply emit_talks.
Qed.

(* ---- the countdown ---- *)

Lemma countdown_loop_talks (rounds : nat) (end_time : Z) (t : timer) (w : world) :
  talks tick (t, w) (t, countdown_loop rounds end_time w).
Proof.
  revert w; induction rounds as [|k IH]; intros w; cbn [countdown_loop].
  - apply talks_refl.
  - unfold time_time. destruct (clock w <? end_time).
    + eapply talks_trans; [|apply IH].
      split; [repeat split|]. eexists [_]. cbn. split; [reflexivity|].
      now repeat constructor.
    + split; [repeat split|]. exists []. cbn. now rewrite app_nil_r.
Qed.

(** The bound [countdown] passes to the loop is never the reason the loop
    stops: more rounds give the same result. *)
Lemma countdown_loop_enough (n extra : nat) (end_time : Z) (w : world) :
  end_time - clock w <= Z.of_nat n * 1000000 ->
  countdown_loop (S n + extra) end_time w = countdown_loop (S n) end_time w.
Proof.
  revert w; induction n as [|n IH]; intros w Hn.
  - cbn [countdown_loop Nat.add]. unfold time_time.
    destruct (Z.ltb_spec (clock w) end_time) as [Hlt|_]; [lia | reflexivity].
  - change (S (S n) + extra)%nat with (S (S n + extra)).
    cbn [countdown_loop]. unfold time_time. cbn [clock set_clock].
    destruct (clock w <? end_time); [|reflexivity].
    apply IH. cbn [clock time_sleep emit set_clock]. lia.
Qed.

Lemma countdown_rounds_suffice (duration : Z) (extra : nat) (w : world) :
  let end_time := clock w + duration * 1000000 in
  let w0 := snd (time_time w) in
  countdown_loop (S (Z.to_nat duration) + extra) end_time w0
  = countdown_loop (S (Z.to_nat duration)) end_time w0.
Proof.
  cbv zeta. apply countdown_loop_enough. cbn [time_time snd clock set_clock].
  pose proof (N2Z.is_nonneg (latency w)). lia.
Qed.

Lemma countdown_runs (duration : Z) (label : string) (t : timer) (w : world) :
  exists w' ticks,
    countdown duration label (t, w) = (Ok true, (t, w'))
    /\ steady (t, w) (t, w')
    /\ trace w' = trace w ++ OutCountdown label (duration / 60) :: ticks
                             ++ [OutCountdownDone label]
    /\ Forall (fun e => tick e = true) ticks.
Proof.
  unfold countdown. mrun. unfold time_time. cbn [clock emit].
  set (w0 := set_clock _ _).
  set (end_time := clock w + duration * 1000000).
  destruct (countdown_loop_talks (S (Z.to_nat duration)) end_time t w0)
    as (S1 & ticks & T & F).
  eexists; exists ticks. split; [reflexivity|]. split; [|split; [|exact F]].
  - eapply steady_trans; [|split; [apply S1|apply S1]]. repeat split.
  - cbn [trace emit snd fst] in *. rewrite T. unfold w0. cbn.
    rewrite <- !app_assoc. reflexivity.
Qed.

(* ---- persistence ---- *)

Lemma save_sessions_cases (t : timer) (w : world) :
  let text := Json.dumps (sessions t) in
  exists w',
    save_sessions (t, w)
    = (if write_fails (storage w) text then Raise OSError else Ok tt, (t, w'))
    /\ trace w' = trace w /\ storage w' = storage w /\ wall w' = wall w
    /\ wall_reads w' = wall_reads w /\ stdin w' = stdin w
    /\ (write_fails (storage w) text = false ->
        forall p, files w' p
                  = if (p =? data_file t)%string then Some text else files w p)
    /\ (storage w = Denied -> w' = w).
Proof.
  intros text. unfold save_sessions, open_write, write_text. mrun. fold text.
  destruct (storage w) eqn:Es; mrun; cbn [storage write_file set_files].
  - rewrite Es. mrun. eexists. split; [reflexivity|].
    repeat split; try discriminate; try exact Es.
    intros _ p; cbn. now destruct (p =? data_file t)%string.
  - exists w. repeat split; try discriminate; try exact Es.
  - rewrite Es. cbn [write_fails].
    destruct (room <? String.length text)%nat; mrun;
      (eexists; split; [reflexivity|]);
      repeat split; try discriminate; try exact Es.
    intros _ p; cbn. now destruct (p =? data_file t)%string.
Qed.

(* ---- one session, step by step ---- *)

Lemma sound_preference_talks (t : timer) (w : world)
  (r : result unit) (st' : state) :
  match sound_mode t with
  | Some _ => ret tt
  | None => choose_sound_mode
  end (t, w) = (r, st') ->
  talks dialogue (t, w) st' /\ (r = Ok tt \/ r = Raise EOFError).
Proof.
  destruct (sound_mode t).
  - intros [= <- <-]. split; [apply talks_refl | now left].
  - apply choose_sound_mode_talks.
Qed.

Lemma opening_of_dialogue (e : event) : dialogue e = true -> opening e = true.
Proof. destruct e; cbn; congruence. Qed.

Lemma opening_of_sound (e : event) : sound e = true -> opening e = true.
Proof. destruct e; cbn; congruence. Qed.

Lemma opening_of_tick (e : event) : tick e = true -> opening e = true.
Proof. destruct e; cbn; congruence. Qed.

Lemma pause_of_sound (e : event) : sound e = true -> pause e = true.
Proof. destruct e; cbn; congruence. Qed.

Lemma pause_of_tick (e : event) : tick e = true -> pause e = true.
Proof. destruct e; cbn; congruence. Qed.

Lemma start_session_run (task : string) (t : timer) (w : world)
  (l : list value) (r : result unit) (t' : timer) (w' : world) :
  sessions t = VList l ->
  start_session task (t, w) = (r, (t', w')) ->
  let record := new_record task (wall w (wall_reads w))
                  (wall w (S (wall_reads w))) (work_duration t) in
  let text := Json.dumps (VList (l ++ [record])) in
  same_setting (t, w) (t', w')
  /\ exists before,
      Forall (fun e => opening e = true) before
      /\ ((r = Raise EOFError /\ sessions t' = VList l
           /\ files w' = files w /\ wall_reads w' = wall_reads w
           /\ trace w' = trace w ++ before)
          \/ exists chime,
              Forall (fun e => sound e = true) chime
              /\ sessions t' = VList (l ++ [record])
              /\ wall_reads w' = S (S (wall_reads w))
              /\ ((write_fails (storage w) text = true /\ r = Raise OSError
                   /\ (storage w = Denied -> files w' = files w)
                   /\ trace w' = trace w ++ before
                        ++ OutCountdownDone "Work Session" :: chime)
                  \/ (write_fails (storage w) text = false
                      /\ (forall p, files w' p
                            = if (p =? data_file t)%string then Some text
                              else files w p)
                      /\ exists rest,
                          trace w' = trace w ++ before
                            ++ OutCountdownDone "Work Session" :: chime
                            ++ OutCompleted task
                               :: Ask "Take a 5-minute break? (y/n): " :: rest
                          /\ ((rest = [] /\ r = Raise EOFError)
                              \/ (exists a, rest = [Answer a]
                                    /\ (lower a =? "y")%string = false
                                    /\ r = Ok tt)
                              \/ (exists a break,
                                    rest = Answer a :: break
                                    /\ lower a = "y" /\ r = Ok tt
                                    /\ Forall (fun e => pause e = true) break))))).
Proof.
  intros Hl Hrun record text. unfold start_session in Hrun.
  revert Hrun; mrun; intros Hrun.
  (* the sound preference *)
  lazymatch type of Hrun with
  | (let (_, _) := ?c in _) = _ => destruct c as [r1 [t1 w1]] eqn:E1
  end.
  apply sound_preference_talks in E1 as [(S1 & n1 & T1 & F1) [-> | ->]];
    cbn beta iota zeta in Hrun.
  2: { injection Hrun as <- <- <-. split; [apply S1|].
       exists n1. split; [eapply Forall_impl; [apply opening_of_dialogue|exact F1]|].
       left. destruct S1 as (_ & Hs & Hf & Hw). cbn in *.
       repeat split; congruence. }
  (* the start sound and the work countdown *)
  cbn [fst snd] in Hrun.
  destruct (play_sound_talks "start" t1 (emit (OutStarting task) w1))
    as (t2 & w2 & E2 & S2 & n2 & T2 & F2).
  rewrite E2 in Hrun.
  destruct (countdown_runs (work_duration t2) "Work Session" t2 w2)
    as (w3 & ticks & E3 & S3 & T3 & F3).
  cbn [fst] in Hrun. rewrite E3 in Hrun.
  (* the completion sound and the record *)
  destruct (play_sound_talks "complete" t2 w3)
    as (t4 & w4 & E4 & S4 & chime & T4 & F4).
  rewrite E4 in Hrun. cbn [fst snd] in Hrun.
  assert (S04 : steady (t, w) (t4, w4)).
  { eapply steady_trans; [exact S1|].
    eapply steady_trans; [|exact S4].
    eapply steady_trans; [|exact S3].
    eapply steady_trans; [|exact S2]. repeat split. }
  assert (Tr4 : trace w4 = trace w ++ (n1 ++ OutStarting task :: n2
                  ++ OutCountdown "Work Session" (work_duration t2 / 60) :: ticks)
                  ++ OutCountdownDone "Work Session" :: chime).
  { cbn [fst snd trace emit] in *. rewrite T4, T3, T2, T1.
    repeat (rewrite <- ?app_assoc; cbn [List.app]). reflexivity. }
  set (before := n1 ++ _) in Tr4.
  assert (Fb : Forall (fun e => opening e = true) before).
  { unfold before. apply Forall_app. split.
    - eapply Forall_impl; [apply opening_of_dialogue | exact F1].
    - constructor; [reflexivity|]. apply Forall_app. split.
      + eapply Forall_impl; [apply opening_of_sound | exact F2].
      + constructor; [reflexivity|].
        eapply Forall_impl; [apply opening_of_tick | exact F3]. }
  destruct S04 as (Set04 & Hs4 & Hf4 & Hw4). cbn [fst snd] in Hs4, Hf4, Hw4.
  pose proof Set04 as (Hd4 & Hwd4 & Hbd4 & Hst4 & Hwall4). cbn [fst snd] in *.
  cbn [wall wall_reads tick_wall] in Hrun.
  rewrite <- Hwall4, <- Hw4, <- Hwd4 in Hrun.
  fold (new_record task (wall w (wall_reads w)) (wall w (S (wall_reads w)))
          (work_duration t)) in Hrun.
  fold record in Hrun.
  unfold append in Hrun. revert Hrun; mrun; intros Hrun.
  rewrite <- Hs4, Hl in Hrun. revert Hrun; mrun; intros Hrun.
  (* persistence *)
  set (t5 := set_sessions (VList (l ++ [record])) t4) in *.
  set (w5 := tick_wall (tick_wall w4)) in *.
  destruct (save_sessions_cases t5 w5)
    as (w6 & E6 & T6 & St6 & Wa6 & Wr6 & In6 & Hok6 & Hden6).
  cbn [sessions t5 set_sessions] in E6, Hok6. fold text in E6, Hok6.
  cbn [storage w5 tick_wall] in E6, Hok6, Hden6, St6.
  rewrite <- Hst4 in E6, Hok6, Hden6.
  rewrite E6 in Hrun.
  assert (Set6 : same_setting (t, w) (t5, w6)).
  { unfold same_setting. cbn [fst snd data_file work_duration break_duration
                               t5 set_sessions].
    rewrite St6, Wa6. cbn [storage wall w5 tick_wall].
    repeat split; assumption. }
  assert (Tr6 : trace w6 = trace w ++ before
                  ++ OutCountdownDone "Work Session" :: chime).
  { rewrite T6. exact Tr4. }
  assert (Wr6' : wall_reads w6 = S (S (wall_reads w))).
  { rewrite Wr6. cbn. now rewrite Hw4. }
  destruct (write_fails (storage w) text) eqn:Ewf.
  { (* the write fails *)
    injection Hrun as <- <- <-. split; [exact Set6|].
    exists before. split; [exact Fb|]. right. exists chime.
    split; [exact F4|]. split; [reflexivity|]. split; [exact Wr6'|].
    left. repeat split; try assumption.
    intros Hden. rewrite (Hden6 Hden). cbn. now rewrite Hf4. }
  (* the write succeeds *)
  specialize (Hok6 eq_refl). cbn [fst snd] in Hrun.
  assert (Hfiles : forall p, files w6 p
            = if (p =? data_file t)%string then Some text else files w p).
  { intros p. rewrite Hok6. cbn [data_file t5 set_sessions files w5 tick_wall].
    now rewrite <- Hd4, <- Hf4. }
  destruct (input_cases "Take a 5-minute break? (y/n): " t5
              (emit (OutCompleted task) w6))
    as [[_ E7] | (a & more & _ & E7)]; rewrite E7 in Hrun; clear E7.
  { (* end of input at the break prompt *)
    injection Hrun as <- <- <-. split; [exact Set6|].
    exists before. split; [exact Fb|]. right. exists chime.
    split; [exact F4|]. split; [reflexivity|]. split; [exact Wr6'|].
    right. split; [reflexivity|]. split; [exact Hfiles|].
    exists []. split; [|now left].
    cbn [trace emit]. rewrite Tr6.
    repeat (rewrite <- ?app_assoc; cbn [List.app]). reflexivity. }
  set (w7 := emit (Answer a) _) in Hrun.
  assert (Tr7 : trace w7 = trace w ++ before
                  ++ OutCountdownDone "Work Session" :: chime
                  ++ [OutCompleted task;
                      Ask "Take a 5-minute break? (y/n): "; Answer a]).
  { unfold w7. cbn [trace emit set_stdin]. rewrite Tr6.
    repeat (rewrite <- ?app_assoc; cbn [List.app]). reflexivity. }
  destruct (lower a =? "y")%string eqn:Ey.
  2: { (* the break is declined *)
    injection Hrun as <- <- <-. split; [exact Set6|].
    exists before. split; [exact Fb|]. right. exists chime.
    split; [exact F4|]. split; [reflexivity|]. split; [exact Wr6'|].
    right. split; [reflexivity|]. split; [exact Hfiles|].
    exists [Answer a]. split; [exact Tr7|]. right; left. now exists a. }
  (* the break is taken *)
  cbn [fst] in Hrun.
  destruct (countdown_runs (break_duration t5) "Break Time" t5 w7)
    as (w8 & ticks8 & E8 & S8 & T8 & F8).
  rewrite E8 in Hrun.
  destruct (play_sound_talks "break_end" t5 w8)
    as (t9 & w9 & E9 & S9 & n9 & T9 & F9).
  rewrite E9 in Hrun. cbn [fst snd] in Hrun.
  injection Hrun as <- <- <-.
  assert (S79 : steady (t5, w7) (t9, w9)) by (eapply steady_trans; eassumption).
  destruct S79 as (Set79 & Hs9 & Hf9 & Hw9). cbn [fst snd] in Hs9, Hf9, Hw9.
  split.
  { eapply same_setting_trans; [exact Set6|].
    eapply same_setting_trans; [|exact Set79]. repeat split. }
  exists before. split; [exact Fb|]. right. exists chime.
  split; [exact F4|]. split; [now rewrite <- Hs9|].
  split; [cbn [wall_reads emit]; now rewrite <- Hw9|].
  right. split; [reflexivity|]. split.
  { intros p. cbn [files emit]. rewrite <- Hf9. apply Hfiles. }
  exists (Answer a :: (OutCountdown "Break Time" (break_duration t5 / 60)
                       :: ticks8 ++ [OutCountdownDone "Break Time"])
                      ++ n9 ++ [OutReady]).
  split.
  { cbn [fst snd] in T9, T8. cbn [trace emit]. rewrite T9, T8, Tr7.
    repeat (rewrite <- ?app_assoc; cbn [List.app]). reflexivity. }
  right; right. exists a. eexists. split; [reflexivity|].
  split; [now apply String.eqb_eq|]. split; [reflexivity|].
  apply Forall_app. split.
  { constructor; [reflexivity|]. apply Forall_app. split.
    - eapply Forall_impl; [apply pause_of_tick | exact F8].
    - now repeat constructor. }
  apply Forall_app. split.
  { eapply Forall_impl; [apply pause_of_sound | exact F9]. }
  now repeat constructor.
Qed.

Lemma kind_excludes (kind : event -> bool) (x : event) (l : list event) :
  kind x = false -> Forall (fun e => kind e = true) l -> ~ In x l.
Proof.
  intros Hx F Hin. rewrite Forall_forall in F. specialize (F x Hin). congruence.
Qed.

Lemma split_at_unique {A} (x : A) (p q b a : list A) :
  ~ In x p -> ~ In x q -> p ++ x :: q = b ++ x :: a -> b = p /\ a = q.
Proof.
  revert b; induction p as [|y p IH]; intros [|z b] Hp Hq E; cbn in E.
  - injection E as ->. now split.
  - injection E as <- ->. exfalso. apply Hq. apply in_or_app. right. now left.
  - injection E as -> _. exfalso. apply Hp. now left.
  - injection E as -> E. destruct (IH b) as [-> ->]; auto.
    intros H. apply Hp. now right.
Qed.


Lemma init_runs (path : string) (w : world) :
  exists v, __init__ path w
            = (Ok tt, ({| data_file := path; work_duration := 25 * 60;
                          break_duration := 5 * 60; sessions := v;
                          sound_mode := None; tts_engine := false |}, w)).
Proof.
  unfold __init__, load_sessions, path_exists, read_text, try_except, json_load.
  mrun. cbn [data_file].
  destruct (files w path) as [text|] eqn:Ef; mrun; [|eexists; reflexivity].
  rewrite Ef. destruct (Json.loads text); eexists; reflexivity.
Qed.


(** C3, as stated, fails: on a disk that refuses the write, [main] ends
    with the [OSError] uncaught, and the log in memory keeps the record. *)
Lemma write_failure_escapes_main :
  ~ failure_contained Sample.start_command Sample.read_only
  /\ fst (main Sample.start_command Sample.read_only) = Raise OSError
  /\ sessions (fst (snd (main Sample.start_command Sample.read_only)))
     = VList [new_record "write report" Sample.last_second
                Sample.first_second (25 * 60)].
Proof.
  split; [|split; vm_compute; reflexivity].
  intros H.
  destruct (main Sample.start_command Sample.read_only) as [r [t' w']] eqn:E.
  destruct (__init__ "pomodoro_data.json" Sample.read_only) as [r0 [t0 w0]] eqn:E0.
  destruct (H r t' w' r0 t0 w0 E E0) as [Hr _].
  assert (Hfst : fst (main Sample.start_command Sample.read_only) = Raise OSError)
    by (vm_compute; reflexivity).
  rewrite E in Hfst. cbn in Hfst. congruence.
Qed.

(** C3, amended. When the write of the data file cannot complete,
    [save_sessions] raises [OSError] to its caller; [start_session] and
    [main] do not catch it, so the run ends with that exception right after
    the completion sound, and the record stays in the log in memory. *)
Theorem write_failure_propagates
  (task : string) (t : timer) (w : world) (l : list value)
  (r : result unit) (t' : timer) (w' : world) (before after : list event) :
  sessions t = VList l ->
  start_session task (t, w) = (r, (t', w')) ->
  trace w' = trace w ++ before ++ OutCountdownDone "Work Session" :: after ->
  write_fails (storage w) (Json.dumps (sessions t')) = true ->
  r = Raise OSError
  /\ (exists record, sessions t' = VList (l ++ [record]))
  /\ Forall (fun e => sound e = true) after
  /\ (forall t0 w0,
        write_fails (storage w0) (Json.dumps (sessions t0)) = true ->
        exists w1, save_sessions (t0, w0) = (Raise OSError, (t0, w1)))
  /\ (forall prog word words w0,
        main (prog :: "start" :: word :: words) w0
        = match __init__ "pomodoro_data.json" w0 with
          | (Ok _, st) => start_session (join " " (word :: words)) st
          | (Raise e, st) => (Raise e, st)
          end).
Proof.
  intros Hl Hrun Htrace Hfail.
  destruct (start_session_run task t w l r t' w' Hl Hrun)
    as (_ & P & FP & [(_ & _ & _ & _ & T) | (chime & Fc & Hs & _ & Hcases)]).
  { exfalso. rewrite T in Htrace. apply app_inv_head in Htrace.
    apply (kind_excludes opening work_done P eq_refl FP).
    rewrite Htrace. apply in_or_app. right. now left. }
  rewrite Hs in Hfail.
  destruct Hcases as [(_ & -> & _ & T) | (Hok & _)]; [|congruence].
  rewrite T in Htrace. apply app_inv_head in Htrace.
  apply split_at_unique in Htrace as [-> ->];
    [| exact (kind_excludes opening work_done P eq_refl FP)
     | exact (kind_excludes sound work_done chime eq_refl Fc)].
  split; [reflexivity|]. split; [eexists; exact Hs|]. split; [exact Fc|].
  split; [|reflexivity].
  intros t0 w0 H0. destruct (save_sessions_cases t0 w0) as (w1 & E & _).
  cbv zeta in E. rewrite H0 in E. now exists w1.
Qed.

(** C4, as stated, fails: a data file that holds a record with [completed]
    false is loaded as it is. *)
Lemma loaded_log_may_hold_incomplete_record :
  ~ no_incomplete (sessions (fst (snd (__init__ "pomodoro_data.json" Sample.edited)))).
Proof.
  intros H.
  apply (H [to_value Sample.abandoned] (to_value Sample.abandoned)).
  - vm_compute. reflexivity.
  - now left.
  - reflexivity.
Qed.

(** C4, amended. A run of [start_session] on a log, a list, without a
    record whose [completed] is false leaves such a log, however the run
    ends; and the log loaded from an absent or unparsable data file is
    empty. *)
Theorem appended_records_are_completed
  (task : string) (t : timer) (w : world) (l : list value)
  (r : result unit) (t' : timer) (w' : world) :
  sessions t = VList l ->
  no_incomplete (VList l) ->
  start_session task (t, w) = (r, (t', w')) ->
  no_incomplete (sessions t')
  /\ (forall path w0,
        files w0 path = None ->
        sessions (fst (snd (__init__ path w0))) = VList [])
  /\ (forall path w0 text,
        files w0 path = Some text -> Json.loads text = None ->
        sessions (fst (snd (__init__ path w0))) = VList []).
Proof.
  intros Hl Hno Hrun. split; [|split].
  - destruct (start_session_run task t w l r t' w' Hl Hrun)
      as (_ & P & FP & [(_ & -> & _) | (chime & Fc & -> & _)]);
      [exact Hno|].
    intros l0 s [= <-] Hin. apply in_app_or in Hin as [Hin | [<- | []]].
    + now apply (Hno l s).
    + discriminate.
  - intros path w0 Hf. unfold __init__, load_sessions, path_exists. mrun.
    cbn [data_file]. rewrite Hf. reflexivity.
  - intros path w0 text Hf Hbad.
    unfold __init__, load_sessions, path_exists, read_text, try_except, json_load.
    mrun. cbn [data_file]. rewrite Hf. mrun. rewrite Hf, Hbad. reflexivity.
Qed.

(** C5. The record takes its date from one reading of the wall clock and
    its time from the next.  When midnight falls between the two, the
    record made on 1 January at 23:59:59 is dated 2024-01-01 at 00:00:00, an
    instant the clock never showed. *)
Theorem record_mixes_two_clock_readings :
  let outcome := main Sample.start_command Sample.fresh in
  fst outcome = Ok tt
  /\ sessions (fst (snd outcome))
     = VList [VDict [("task", VStr "write report");
                     ("date", VStr "2024-01-01");
                     ("time", VStr "00:00:00");
                     ("duration", VInt 25);
                     ("completed", VBool true)]]
  /\ wall_reads (snd (snd outcome)) = 2%nat
  /\ (forall n, ~ (format_date (wall Sample.fresh n) = "2024-01-01"
                   /\ format_time (wall Sample.fresh n) = "00:00:00")).
Proof.
  cbv zeta. split; [vm_compute; reflexivity|].
  split; [vm_compute; reflexivity|]. split; [vm_compute; reflexivity|].
  intros [|n] [Hd Ht]; vm_compute in Hd, Ht; discriminate.
Qed.

End Session.

(** ** Persistence *)

Section Persistence.
Import Py World Pomodoro Log.

(** C2. [load_sessions] never raises and leaves the timer and the
    environment as they are: it returns the empty list when the data file
    is absent and when its text is not parsed, and the parsed value
    otherwise.  A text is never rejected for lack of recursion rounds. *)
Theorem load_never_raises (t : timer) (w : world) :
  exists v,
    load_sessions (t, w) = (Ok v, (t, w))
    /\ (files w (data_file t) = None -> v = VList [])
    /\ (forall text, files w (data_file t) = Some text ->
                     Json.loads text = None -> v = VList [])
    /\ (forall text v', files w (data_file t) = Some text ->
                        Json.loads text = Some v' -> v = v')
    /\ (forall text,
          Json.scan_value (2 * String.length text + 2) (Json.skip_ws text)
          <> Json.Cutoff).
Proof.
  unfold load_sessions, path_exists, read_text, try_except, json_load. mrun.
  destruct (files w (data_file t)) as [text|] eqn:Ef; mrun.
  - rewrite Ef. destruct (Json.loads text) as [v|] eqn:El; mrun.
    + exists v. split; [reflexivity|]. split; [discriminate|].
      split; [intros ? [= <-]; congruence|].
      split; [intros ? ? [= <-]; congruence | apply loads_never_cutoff].
    + exists (VList []). split; [reflexivity|]. split; [reflexivity|].
      split; [reflexivity|].
      split; [intros ? ? [= <-]; congruence | apply loads_never_cutoff].
  - exists (VList []). split; [reflexivity|]. split; [reflexivity|].
    split; [discriminate|]. split; [discriminate | apply loads_never_cutoff].
Qed.

(* ---- what is saved is what is loaded ---- *)

Lemma log_distinct_keys (l : list session) : Json.distinct_keys (log_value l).
Proof.
  unfold log_value. induction l as [|s l IH]; [exact I|].
  cbn [map]. apply distinct_keys_list. split; [|exact IH].
  cbn. split; [|tauto].
  repeat (constructor; [cbn; intuition discriminate|]). constructor.
Qed.

Lemma save_then_init (t : timer) (w : world) :
  storage w = Healthy ->
  Json.distinct_keys (sessions t) ->
  exists w',
    save_sessions (t, w) = (Ok tt, (t, w'))
    /\ storage w' = Healthy
    /\ files w' (data_file t) = Some (Json.dumps (sessions t))
    /\ __init__ (data_file t) w'
       = (Ok tt, (set_sessions (sessions t)
                    {| data_file := data_file t; work_duration := 25 * 60;
                       break_duration := 5 * 60; sessions := VNone;
                       sound_mode := None; tts_engine := false |}, w')).
Proof.
  intros Hs Hk. destruct (save_sessions_cases t w)
    as (w' & E & _ & St & _ & _ & _ & Hf & _).
  cbv zeta in E, Hf. rewrite Hs in E, Hf. cbn [write_fails] in E, Hf.
  specialize (Hf eq_refl (data_file t)). rewrite String.eqb_refl in Hf.
  exists w'. split; [exact E|]. split; [congruence|]. split; [exact Hf|].
  unfold __init__, load_sessions, path_exists, read_text, try_except, json_load.
  mrun. cbn [data_file]. rewrite Hf. mrun. rewrite Hf.
  rewrite loads_dumps by exact Hk. reflexivity.
Qed.

Lemma append_to_log (l : list session) (s : session) (t : timer) (w : world) :
  append (to_value s) (set_sessions (log_value l) t, w)
  = (Ok tt, (set_sessions (log_value (l ++ [s])) t, w)).
Proof.
  unfold append. mrun. cbn [sessions set_sessions log_value].
  unfold log_value. now rewrite map_app.
Qed.

(** C9. On a disk that accepts the write, appending a record to a log of
    session records and saving, then building a new timer on the same
    file, gives the same records in the same order, field for field; the
    same holds after any number of records appended and saved one at a
    time. *)
Theorem saved_log_loads_back (l : list session) (s : session)
  (t : timer) (w : world) :
  storage w = Healthy ->
  (exists w',
      (append (to_value s) ;;; save_sessions) (set_sessions (log_value l) t, w)
      = (Ok tt, (set_sessions (log_value (l ++ [s])) t, w'))
      /\ fst (__init__ (data_file t) w') = Ok tt
      /\ sessions (fst (snd (__init__ (data_file t) w'))) = log_value (l ++ [s]))
  /\ (forall more : list session,
        exists w',
          for_each (s :: more)
            (fun x => append (to_value x) ;;; save_sessions)
            (set_sessions (log_value l) t, w)
          = (Ok tt, (set_sessions (log_value (l ++ s :: more)) t, w'))
          /\ fst (__init__ (data_file t) w') = Ok tt
          /\ sessions (fst (snd (__init__ (data_file t) w')))
             = log_value (l ++ s :: more)).
Proof.
  intros Hs.
  assert (Hone : forall l s w, storage w = Healthy ->
            exists w',
              (append (to_value s) ;;; save_sessions)
                (set_sessions (log_value l) t, w)
              = (Ok tt, (set_sessions (log_value (l ++ [s])) t, w'))
              /\ storage w' = Healthy
              /\ fst (__init__ (data_file t) w') = Ok tt
              /\ sessions (fst (snd (__init__ (data_file t) w')))
                 = log_value (l ++ [s])).
  { clear. intros l s w Hs. unfold bind. rewrite append_to_log.
    destruct (save_then_init (set_sessions (log_value (l ++ [s])) t) w Hs
                (log_distinct_keys _)) as (w' & E & St & _ & Ei).
    exists w'. rewrite E. cbn [data_file set_sessions] in Ei. rewrite Ei.
    repeat split; assumption. }
  split.
  - destruct (Hone l s w Hs) as (w' & E & _ & Hi). now exists w'.
  - intros more. revert l s w Hs.
    induction more as [|x more IH]; intros l s w Hs.
    + destruct (Hone l s w Hs) as (w' & E & _ & Hi). exists w'.
      cbn [for_each]. unfold bind at 1. rewrite E. now split.
    + destruct (Hone l s w Hs) as (w1 & E & Hs1 & _).
      destruct (IH (l ++ [s]) x w1 Hs1) as (w' & E' & Hi).
      exists w'. cbn [for_each] in *. unfold bind at 1. rewrite E.
      rewrite <- app_assoc in E', Hi. cbn [List.app] in E', Hi. now split.
Qed.

End Persistence.

(** ** The properties at sample inputs *)

Section Samples.
Import Py World Pomodoro Log.


Lemma write_failure_witness :
  let outcome := start_session "write report" (Sample.novice, Sample.read_only) in
  fst outcome = Raise OSError
  /\ exists record, sessions (fst (snd outcome)) = VList [record].
Proof.
  intros outcome.
  pose (new := trace (snd (snd outcome))).
  destruct (write_failure_propagates "write report"
              Sample.novice Sample.read_only []
              (fst outcome) (fst (snd outcome)) (snd (snd outcome))
              (firstn 1506 new) (skipn 1507 new))
    as (Hr & Hlog & _).
  - reflexivity.
  - vm_compute. reflexivity.
  - vm_compute. reflexivity.
  - vm_compute. reflexivity.
  - split; assumption.
Defined.

Lemma appended_records_witness :
  no_incomplete
    (sessions (fst (snd (start_session "write report"
                           (Sample.novice, Sample.fresh))))).
Proof.
  pose (outcome := start_session "write report" (Sample.novice, Sample.fresh)).
  apply (appended_records_are_completed "write report"
           Sample.novice Sample.fresh []
           (fst outcome) (fst (snd outcome)) (snd (snd outcome))).
  - reflexivity.
  - intros l s [= <-] [].
  - vm_compute. reflexivity.
Defined.

Lemma history_view_witness :
  recent (log_value [Sample.reading; Sample.writing; Sample.review]) 10
  = Ok (map to_value [Sample.review; Sample.writing; Sample.reading]).
Proof.
  apply (history_view_most_recent_first
           [Sample.reading; Sample.writing; Sample.review] 10
           Sample.novice Sample.fresh).
  lia.
Defined.


Lemma saved_log_witness :
  exists w',
    (append (to_value Sample.review) ;;; save_sessions)
      (set_sessions (log_value [Sample.reading; Sample.writing]) Sample.novice,
       Sample.fresh)
    = (Ok tt,
       (set_sessions
          (log_value [Sample.reading; Sample.writing; Sample.review])
          Sample.novice, w'))
    /\ sessions (fst (snd (__init__ "pomodoro_data.json" w')))
       = log_value [Sample.reading; Sample.writing; Sample.review].
Proof.
  destruct (saved_log_loads_back [Sample.reading; Sample.writing]
              Sample.review Sample.novice Sample.fresh)
    as ((w' & Hrun & _ & Hload) & _).
  - reflexivity.
  - exists w'. split; [exact Hrun | exact Hload].
Defined.

Lemma history_any_limit_witness :
  recent (log_value [Sample.reading; Sample.writing; Sample.review]) 0
  = Ok (map to_value [Sample.review; Sample.writing; Sample.reading])
  /\ recent (log_value [Sample.reading; Sample.writing; Sample.review]) (-2)
     = Ok (map to_value [Sample.review]).
Proof.
  destruct (history_view_nonpositive_limit
              [Sample.reading; Sample.writing; Sample.review]
              Sample.novice Sample.fresh)
    as (Hzero & _ & Hneg).
  - discriminate.
  - split; [exact Hzero|]. apply (Hneg (-2)). lia.
Defined.

End Samples.

(* ================================================================== *)
(** * Further properties *)
(* ================================================================== *)

Section Further.
Import Py World Pomodoro Log.

(** ** The countdown *)

(* ---- how long a countdown lasts ---- *)

Lemma whole_seconds_below (a : Z) :
  Z.quot a 1000000 * 1000000 <= Z.max 0 a.
Proof.
  destruct (Z.le_gt_cases 0 a) as [Hpos|Hneg].
  - pose proof (Z.mul_quot_le a 1000000 Hpos ltac:(lia)). lia.
  - assert (H : Z.quot a 1000000 <= 0).
    { replace a with (- - a) by lia. rewrite Z.quot_opp_l by lia.
      pose proof (Z.quot_pos (- a) 1000000 ltac:(lia) ltac:(lia)). lia. }
    lia.
Qed.

(** The loop leaves only when the clock has reached [end_time]; it prints at
    most one tick per second left, and no tick shows more than the time
    between [start] and [end_time]. *)
Lemma countdown_loop_lasts (n : nat) (end_time start : Z) (w : world) :
  end_time - clock w <= Z.of_nat n * 1000000 ->
  start <= clock w ->
  end_time <= clock (countdown_loop (S n) end_time w)
  /\ exists ticks,
       trace (countdown_loop (S n) end_time w) = trace w ++ ticks
       /\ (List.length ticks <= n)%nat
       /\ Forall (fun e => exists mins secs,
                    e = OutTick mins secs
                    /\ 0 <= secs < 60
                    /\ (mins * 60 + secs) * 1000000
                       <= Z.max 0 (end_time - start))
                 ticks.
Proof.
  revert w; induction n as [|n IH]; intros w Hn Hstart;
    pose proof (N2Z.is_nonneg (latency w)) as Hlat.
  - cbn [countdown_loop]. unfold time_time.
    destruct (Z.ltb_spec (clock w) end_time) as [Hlt|Hge]; [lia|].
    cbn [clock set_clock trace]. split; [lia|].
    exists []. rewrite app_nil_r. repeat split; auto.
  - change (countdown_loop (S (S n)) end_time w)
      with (let (t1, w1) := time_time w in
            if t1 <? end_time then
              let (t2, w2) := time_time w1 in
              let remaining := Z.quot (end_time - t2) 1000000 in
              countdown_loop (S n) end_time
                (time_sleep 1000000
                   (emit (OutTick (remaining / 60) (remaining mod 60)) w2))
            else w1).
    unfold time_time. cbn [clock set_clock]. cbv zeta.
    destruct (Z.ltb_spec (clock w) end_time) as [Hlt|Hge].
    + set (t2 := clock w + Z.of_N (latency w)).
      set (remaining := Z.quot (end_time - t2) 1000000).
      set (w3 := time_sleep 1000000 _).
      destruct (IH w3) as (Hend & ticks & Ht & Hlen & Hall).
      { unfold w3. cbn [clock time_sleep emit set_clock]. lia. }
      { unfold w3. cbn [clock time_sleep emit set_clock]. lia. }
      split; [exact Hend|].
      exists (OutTick (remaining / 60) (remaining mod 60) :: ticks).
      split; [|split].
      * rewrite Ht. unfold w3. cbn [trace time_sleep emit set_clock].
        now rewrite <- app_assoc.
      * cbn [List.length]. lia.
      * constructor; [|exact Hall].
        exists (remaining / 60), (remaining mod 60). split; [reflexivity|].
        split; [apply Z.mod_pos_bound; lia|].
        replace (remaining / 60 * 60 + remaining mod 60) with remaining
          by (rewrite (Z.div_mod remaining 60) at 1; lia).
        pose proof (whole_seconds_below (end_time - t2)). fold remaining in H.
        unfold t2 in *. lia.
    + cbn [clock set_clock trace]. split; [lia|].
      exists []. rewrite app_nil_r. repeat split; auto. cbn; lia.
Qed.

(** X1. A countdown never ends early and never fails: it returns [True]
    only once the clock has advanced by the whole duration; between its
    heading and its closing line it prints at most one tick per second of
    the duration, each with seconds from 0 to 59 and no more time than the
    duration. *)
Theorem countdown_lasts_whole_duration
  (duration : Z) (label : string) (t : timer) (w : world) :
  exists w' ticks,
    countdown duration label (t, w) = (Ok true, (t, w'))
    /\ clock w + duration * 1000000 <= clock w'
    /\ trace w' = trace w ++ OutCountdown label (duration / 60) :: ticks
                             ++ [OutCountdownDone label]
    /\ (List.length ticks <= Z.to_nat duration)%nat
    /\ Forall (fun e => exists mins secs,
                 e = OutTick mins secs
                 /\ 0 <= secs < 60 /\ mins * 60 + secs <= duration)
              ticks.
Proof.
  unfold countdown. mrun. unfold time_time. cbn [clock emit].
  set (w0 := set_clock _ _).
  set (end_time := clock w + duration * 1000000).
  pose proof (N2Z.is_nonneg (latency w)) as Hlat.
  destruct (countdown_loop_lasts (Z.to_nat duration) end_time (clock w) w0)
    as (Hend & ticks & Ht & Hlen & Hall).
  { unfold w0, end_time. cbn [clock set_clock latency emit]. lia. }
  { unfold w0. cbn [clock set_clock latency emit]. lia. }
  eexists; exists ticks. split; [reflexivity|].
  cbn [clock emit trace]. split; [exact Hend|]. split; [|split; [exact Hlen|]].
  - rewrite Ht. unfold w0. cbn [trace set_clock emit].
    rewrite <- !app_assoc. reflexivity.
  - destruct (Z.le_gt_cases 0 duration) as [Hd|Hd].
    + eapply Forall_impl; [|exact Hall]. cbv beta.
      intros e (mins & secs & -> & Hs & Hb). exists mins, secs.
      split; [reflexivity|]. split; [exact Hs|]. unfold end_time in Hb. lia.
    + destruct ticks; [constructor|]. cbn [List.length] in Hlen. lia.
Qed.

(** ** What the commands leave untouched *)

(* ---- what a command keeps ---- *)

Section Keeping.

Context {R : state -> state -> Prop}.
Hypothesis R_refl : forall st, R st st.
Hypothesis R_trans : forall a b c, R a b -> R b c -> R a c.

Lemma keeps_ret {A} (a : A) : keeps R (ret a).
Proof. intros st r st' [= <- <-]. apply R_refl. Qed.

Lemma keeps_raise {A} (e : exn) : keeps R (@raise A e).
Proof. intros st r st' [= <- <-]. apply R_refl. Qed.

Lemma keeps_lift {A} (x : result A) : keeps R (lift x).
Proof. intros st r st' [= <- <-]. apply R_refl. Qed.

Lemma keeps_self : keeps R self.
Proof. intros st r st' [= <- <-]. apply R_refl. Qed.

Lemma keeps_env : keeps R env.
Proof. intros st r st' [= <- <-]. apply R_refl. Qed.

Lemma keeps_bind {A B} (c : M A) (k : A -> M B) :
  keeps R c -> (forall a, keeps R (k a)) -> keeps R (bind c k).
Proof.
  intros Hc Hk st r st'. unfold bind.
  destruct (c st) as [[a|e] st1] eqn:E.
  - intros H. eapply R_trans; [exact (Hc _ _ _ E) | exact (Hk a _ _ _ H)].
  - intros [= <- <-]. exact (Hc _ _ _ E).
Qed.

Lemma keeps_for_each {A} (l : list A) (body : A -> M unit) :
  (forall x, keeps R (body x)) -> keeps R (for_each l body).
Proof.
  intros Hb. induction l as [|x l IH]; cbn [for_each].
  - apply keeps_ret.
  - apply keeps_bind; [apply Hb | intros _; exact IH].
Qed.

Lemma keeps_try_except {A} (body handler : M A) :
  keeps R body -> keeps R handler -> keeps R (try_except body handler).
Proof.
  intros Hb Hh st r st'. unfold try_except.
  destruct (body st) as [[a|e] st1] eqn:E.
  - intros [= <- <-]. exact (Hb _ _ _ E).
  - intros H. eapply R_trans; [exact (Hb _ _ _ E) | exact (Hh _ _ _ H)].
Qed.

End Keeping.

Lemma view_frame_refl (st : state) : view_frame st st.
Proof. repeat split. Qed.

Lemma view_frame_trans (a b c : state) :
  view_frame a b -> view_frame b c -> view_frame a c.
Proof.
  unfold view_frame. intros (?&?&?&?&?) (?&?&?&?&?). repeat split; congruence.
Qed.



Lemma print_keeps_view (e : event) : keeps view_frame (print e).
Proof. intros st r st' [= <- <-]. repeat split. Qed.

Lemma now_keeps_view : keeps view_frame now.
Proof. intros st r st' [= <- <-]. repeat split. Qed.




(** Splitting a command along its binds, branches and loops. *)
Ltac keeping refl trans prims :=
  repeat first
    [ apply (keeps_ret refl)
    | apply (keeps_raise refl)
    | apply (keeps_lift refl)
    | apply (keeps_self refl)
    | apply (keeps_env refl)
    | prims
    | apply (keeps_bind trans); [|intros ?]
    | apply (keeps_for_each refl trans); intros ?
    | match goal with
      | |- keeps _ (if ?b then _ else _) => destruct b
      | |- keeps _ (match ?x with _ => _ end) => destruct x
      | |- keeps _ (let (_, _) := ?x in _) => destruct x
      end ].

Ltac keeping_view :=
  keeping view_frame_refl view_frame_trans
    ltac:(first [apply print_keeps_view | apply now_keeps_view]).


(* ---- the views only look ---- *)

Lemma show_today_keeps : keeps view_frame show_today.
Proof. unfold show_today. keeping_view. Qed.

Lemma show_history_keeps (limit : Z) : keeps view_frame (show_history limit).
Proof. unfold show_history. keeping_view. Qed.

Lemma show_stats_keeps : keeps view_frame show_stats.
Proof. unfold show_stats. keeping_view. Qed.

(** X4. The three views only look: however they end, with a result or with
    an exception, and whatever the shape of the log, they leave the timer
    and its log, the files, standard input and the clock as they were. *)
Theorem views_only_look (limit : Z) (st : state) (r : result unit)
  (st' : state) :
  show_today st = (r, st') \/ show_history limit st = (r, st')
  \/ show_stats st = (r, st') ->
  fst st' = fst st
  /\ files (snd st') = files (snd st)
  /\ storage (snd st') = storage (snd st)
  /\ stdin (snd st') = stdin (snd st)
  /\ clock (snd st') = clock (snd st).
Proof.
  intros [H | [H | H]].
  - exact (show_today_keeps _ _ _ H).
  - exact (show_history_keeps limit _ _ _ H).
  - exact (show_stats_keeps _ _ _ H).
Qed.

Lemma dispatch_keeps (argv : list string) :
  match argv with
  | _ :: command :: _ => lower command <> "start"
  | _ => True
  end ->
  keeps view_frame (dispatch argv).
Proof.
  intros Hcmd. unfold dispatch, show_help.
  destruct argv as [|prog [|command rest]]; try (keeping_view; fail).
  destruct (String.eqb_spec (lower command) "start") as [E|_];
    [contradiction|].
  pose proof show_today_keeps. pose proof show_history_keeps.
  pose proof show_stats_keeps.
  repeat match goal with
         | |- keeps _ (if ?b then _ else _) => destruct b
         end; auto; keeping_view.
Qed.

(** X5. Only [start] writes: a run of [main] with no command or with any
    other command than [start], in any letter case, leaves every file and
    standard input as they were, however it ends. *)
Theorem only_start_writes (argv : list string) (w : world)
  (r : result unit) (t' : timer) (w' : world) :
  match argv with
  | _ :: command :: _ => lower command <> "start"
  | _ => True
  end ->
  main argv w = (r, (t', w')) ->
  files w' = files w /\ stdin w' = stdin w.
Proof.
  intros Hcmd. unfold main.
  destruct (init_runs "pomodoro_data.json" w) as (v & ->).
  intros H. apply (dispatch_keeps argv Hcmd) in H.
  destruct H as (_ & Hf & _ & Hs & _). now split.
Qed.

(* ---- sounds ---- *)



(* ---- the sound menu ---- *)

Lemma choose_sound_rounds_result (lines : list string) :
  forall t w r t' w',
    lines = stdin w ->
    choose_sound_rounds lines (t, w) = (r, (t', w')) ->
    tts_available w' = tts_available w
    /\ ((r = Ok tt
         /\ (sound_mode t' = Some "beeps" \/ sound_mode t' = Some "none"
             \/ (sound_mode t' = Some "tts" /\ tts_available w = true)))
        \/ (r = Raise EOFError /\ sound_mode t' = sound_mode t
            /\ stdin w' = [])).
Proof.
  induction lines as [|x lines IH]; intros t w r t' w' Hsync;
    cbn [choose_sound_rounds]; unfold bind at 1;
    destruct (input_cases "Choose sound mode (1/2/3): " t w)
      as [[Hin ->] | (line & rest & Hin & ->)];
    try (rewrite <- Hsync in Hin; discriminate).
  - intros [= <- <- <-]. split; [reflexivity|]. right. now repeat split.
  - rewrite <- Hsync in Hin. injection Hin as <- <-.
    set (w1 := emit (Answer x) _).
    assert (Hsync1 : lines = stdin w1) by reflexivity.
    destruct (strip x =? "1")%string.
    { mrun. intros [= <- <- <-]. split; [reflexivity|]. left.
      split; [reflexivity|]. now left. }
    destruct (strip x =? "2")%string.
    { mrun. destruct (tts_available w1) eqn:Etts.
      - mrun. intros [= <- <- <-]. split; [reflexivity|]. left.
        split; [reflexivity|]. right; right. split; [reflexivity|exact Etts].
      - mrun. intros H. apply IH in H; [|reflexivity]. exact H. }
    destruct (strip x =? "3")%string.
    { mrun. intros [= <- <- <-]. split; [reflexivity|]. left.
      split; [reflexivity|]. right; now left. }
    mrun. intros H. apply IH in H; [|reflexivity]. exact H.
Qed.

(** X2. The sound menu ends in one of two ways.  It returns with the
    preference set to [beeps], [none] or [tts], the last only when speech
    is available; or standard input ends before a valid choice, [EOFError]
    is raised with all input read, and the preference stays unset as it
    was.  The log and the files are untouched either way. *)
Theorem choose_sound_mode_result (t : timer) (w : world)
  (r : result unit) (t' : timer) (w' : world) :
  choose_sound_mode (t, w) = (r, (t', w')) ->
  sessions t' = sessions t /\ files w' = files w
  /\ ((r = Ok tt
       /\ (sound_mode t' = Some "beeps" \/ sound_mode t' = Some "none"
           \/ (sound_mode t' = Some "tts" /\ tts_available w = true)))
      \/ (r = Raise EOFError /\ sound_mode t' = sound_mode t
          /\ stdin w' = [])).
Proof.
  intros H. pose proof (choose_sound_mode_talks _ _ _ _ H)
    as [((_ & Hs & Hf & _) & _) _]. cbn [fst snd] in Hs, Hf.
  split; [congruence|]. split; [congruence|].
  revert H. unfold choose_sound_mode. mrun. intros H.
  apply choose_sound_rounds_result in H; [|reflexivity]. apply H.
Qed.

(** ** Records of the wrong shape, and the counts of the days *)

(* ---- a record without its date ---- *)

Lemma select_date_missing (today : string) (l : list value) :
  Forall is_dict l ->
  Exists (fun x => getitem x "date" = Raise KeyError) l ->
  select_date today l = Raise KeyError.
Proof.
  intros Hd He. induction He as [x l Hx | x l He IH];
    cbn [select_date]; inversion Hd as [|? ? [d ->] Hd']; subst.
  - now rewrite Hx.
  - unfold getitem at 1. destruct (dict_get d "date"); [|reflexivity].
    cbn [rbind]. now rewrite (IH Hd').
Qed.

(** X6. When every element of the log is a dictionary and one of them has
    no [date] key, the today view raises [KeyError] before printing
    anything: it has only read the wall clock. *)
Theorem show_today_missing_date (l : list value) (t : timer) (w : world) :
  Forall is_dict l ->
  Exists (fun x => getitem x "date" = Raise KeyError) l ->
  show_today (set_sessions (VList l) t, w)
  = (Raise KeyError, (set_sessions (VList l) t, tick_wall w)).
Proof.
  intros Hd He. unfold show_today. mrun. cbn [sessions set_sessions].
  unfold today_sessions. cbn [iterate rbind].
  now rewrite (select_date_missing _ l Hd He).
Qed.

(* ---- the counts of the days ---- *)

Lemma days_step_total (days : day_counts) (k : value) :
  total_count (days_set days k (days_get days k 0 + 1))
  = total_count days + 1.
Proof.
  induction days as [|[k' n] r IH]; [reflexivity|].
  cbn [days_set days_get]. destruct (key_eqb k' k).
  - cbn [total_count fold_right snd]. lia.
  - change (total_count ((k', n) :: ?r)) with (n + total_count r).
    change (n + total_count (days_set r k (days_get r k 0 + 1))
            = n + total_count r + 1).
    rewrite IH. lia.
Qed.

Lemma days_step_positive (days : day_counts) (k : value) :
  Forall (fun kn => 1 <= snd kn) days ->
  Forall (fun kn => 1 <= snd kn) (days_set days k (days_get days k 0 + 1)).
Proof.
  induction 1 as [|[k' n] r Hn Hr IH]; cbn [days_set days_get].
  - constructor; [cbn [snd]; lia | constructor].
  - destruct (key_eqb k' k).
    + constructor; [cbn [snd] in *; lia | exact Hr].
    + constructor; [exact Hn | exact IH].
Qed.

Lemma days_step_length (days : day_counts) (k : value) (n : Z) :
  (List.length (days_set days k n) <= S (List.length days))%nat.
Proof.
  induction days as [|[k' n'] r IH]; cbn [days_set]; [cbn; lia|].
  destruct (key_eqb k' k); cbn [List.length] in *; lia.
Qed.

Lemma count_days_total (l : list value) :
  forall acc days,
    count_days acc l = Ok days ->
    Forall (fun kn => 1 <= snd kn) acc ->
    total_count days = total_count acc + Z.of_nat (List.length l)
    /\ Forall (fun kn => 1 <= snd kn) days
    /\ (List.length days <= List.length acc + List.length l)%nat.
Proof.
  induction l as [|x l IH]; intros acc days; cbn [count_days].
  - intros [= <-] Hacc. cbn. split; [lia|]. split; [exact Hacc | lia].
  - destruct (getitem x "date") as [date|e]; [|discriminate]. cbn [rbind].
    destruct (hashable date); [|discriminate].
    intros H Hacc. apply IH in H; [|now apply days_step_positive].
    destruct H as (Ht & Hp & Hl). rewrite days_step_total in Ht.
    pose proof (days_step_length acc date (days_get acc date 0 + 1)).
    cbn [List.length]. split; [lia|]. split; [exact Hp | lia].
Qed.

(** X7. The per-day counts add up: when the counting loop of the
    statistics ends normally on a log, the counts of the days sum to the
    number of records, every day counts at least one session, and there
    are no more days than records. *)
Theorem day_counts_add_up (l : list value) (days : day_counts) :
  count_days [] l = Ok days ->
  total_count days = Z.of_nat (List.length l)
  /\ Forall (fun kn => 1 <= snd kn) days
  /\ (List.length days <= List.length l)%nat.
Proof.
  intros H. apply count_days_total in H; [|constructor].
  cbn [total_count fold_right List.length] in H.
  destruct H as (Ht & Hp & Hl). split; [lia|]. split; [exact Hp | lia].
Qed.

(** ** A session, step by step *)

(* ---- one session, state by state ---- *)

(** The states a run of [start_session] goes through, whatever the log
    holds: the sound preference, the start sound, the work countdown, the
    completion sound, the two readings of the wall clock, the record, the
    write and the break. *)
Lemma start_session_steps (task : string) (t : timer) (w : world)
  (r : result unit) (st' : state) :
  start_session task (t, w) = (r, st') ->
  exists r1 t1 w1,
    match sound_mode t with
    | None => choose_sound_mode
    | Some _ => ret tt
    end (t, w) = (r1, (t1, w1))
    /\ ((r1 = Raise EOFError /\ r = Raise EOFError /\ st' = (t1, w1))
        \/ (r1 = Ok tt
            /\ exists t2 w2 w3 t4 w4,
                play_sound "start" (t1, emit (OutStarting task) w1)
                = (Ok tt, (t2, w2))
                /\ countdown (work_duration t2) "Work Session" (t2, w2)
                   = (Ok true, (t2, w3))
                /\ play_sound "complete" (t2, w3) = (Ok tt, (t4, w4))
                /\ let record := new_record task (wall w4 (wall_reads w4))
                                   (wall w4 (S (wall_reads w4)))
                                   (work_duration t4) in
                   let w5 := tick_wall (tick_wall w4) in
                   (((forall l, sessions t4 <> VList l)
                     /\ r = Raise AttributeError /\ st' = (t4, w5))
                    \/ exists l r6 w6,
                        let t5 := set_sessions (VList (l ++ [record])) t4 in
                        sessions t4 = VList l
                        /\ save_sessions (t5, w5) = (r6, (t5, w6))
                        /\ ((r6 = Raise OSError /\ r = Raise OSError
                             /\ st' = (t5, w6))
                            \/ (r6 = Ok tt
                                /\ let w7 := emit (OutCompleted task) w6 in
                                   let ask := "Take a 5-minute break? (y/n): " in
                                   ((stdin w6 = [] /\ r = Raise EOFError
                                     /\ st' = (t5, emit (Ask ask) w7))
                                    \/ exists a rest,
                                        let w8 := emit (Answer a)
                                                    (set_stdin rest
                                                       (emit (Ask ask) w7)) in
                                        stdin w6 = a :: rest
                                        /\ r = Ok tt
                                        /\ (((lower a =? "y")%string = false
                                             /\ st' = (t5, w8))
                                            \/ ((lower a =? "y")%string = true
                                                /\ exists w9 t10 w10,
                                                    countdown (break_duration t5)
                                                      "Break Time" (t5, w8)
                                                    = (Ok true, (t5, w9))
                                                    /\ play_sound "break_end"
                                                         (t5, w9)
                                                       = (Ok tt, (t10, w10))
                                                    /\ st' = (t10, emit OutReady
                                                                     w10))))))))).
Proof.
  intros Hrun. unfold start_session in Hrun.
  revert Hrun; mrun; intros Hrun.
  lazymatch type of Hrun with
  | (let (_, _) := ?c in _) = _ => destruct c as [r1 [t1 w1]] eqn:E1
  end.
  exists r1, t1, w1. split; [reflexivity|].
  pose proof E1 as E1'.
  apply sound_preference_talks in E1' as [_ [-> | ->]];
    cbn beta iota zeta in Hrun.
  2: { left. injection Hrun as <- <-. auto. }
  right. split; [reflexivity|]. cbn [fst snd] in Hrun.
  destruct (play_sound_talks "start" t1 (emit (OutStarting task) w1))
    as (t2 & w2 & E2 & _).
  rewrite E2 in Hrun.
  destruct (countdown_runs (work_duration t2) "Work Session" t2 w2)
    as (w3 & ticks & E3 & _).
  cbn [fst] in Hrun. rewrite E3 in Hrun.
  destruct (play_sound_talks "complete" t2 w3) as (t4 & w4 & E4 & _).
  rewrite E4 in Hrun. cbn [fst snd] in Hrun.
  exists t2, w2, w3, t4, w4. do 3 (split; [assumption|]). cbv zeta.
  cbn [wall wall_reads tick_wall] in Hrun.
  fold (new_record task (wall w4 (wall_reads w4)) (wall w4 (S (wall_reads w4)))
          (work_duration t4)) in Hrun.
  unfold append in Hrun. revert Hrun; mrun; intros Hrun.
  destruct (sessions t4) as [| b | n | s | l | d] eqn:Es;
    try (left; injection Hrun as <- <-;
         split; [intros l; discriminate | split; reflexivity]).
  right. revert Hrun; mrun; intros Hrun.
  set (record := new_record _ _ _ _) in *.
  set (t5 := set_sessions (VList (l ++ [record])) t4) in *.
  set (w5 := tick_wall (tick_wall w4)) in *.
  destruct (save_sessions_cases t5 w5) as (w6 & E6 & _ & _ & _ & _ & In6 & _).
  cbv zeta in E6. rewrite E6 in Hrun.
  exists l. eexists. exists w6. split; [reflexivity|]. split; [exact E6|].
  destruct (write_fails _ _).
  { left. injection Hrun as <- <-. auto. }
  right. split; [reflexivity|]. cbn [fst snd] in Hrun.
  destruct (input_cases "Take a 5-minute break? (y/n): " t5
              (emit (OutCompleted task) w6))
    as [[Hin E7] | (a & more & Hin & E7)]; rewrite E7 in Hrun; clear E7;
    cbn [stdin emit] in Hin.
  { left. injection Hrun as <- <-. auto. }
  right. exists a, more. split; [exact Hin|].
  destruct (lower a =? "y")%string eqn:Ey.
  2: { injection Hrun as <- <-. split; [reflexivity|]. left. auto. }
  cbn [fst] in Hrun.
  set (w8 := emit (Answer a) _) in *.
  destruct (countdown_runs (break_duration t5) "Break Time" t5 w8)
    as (w9 & ticks9 & E9 & _).
  rewrite E9 in Hrun.
  destruct (play_sound_talks "break_end" t5 w9) as (t10 & w10 & E10 & _).
  rewrite E10 in Hrun. cbn [fst snd] in Hrun.
  injection Hrun as <- <-. split; [reflexivity|]. right.
  split; [reflexivity|]. exists w9, t10, w10. auto.
Qed.

(* ---- the clock ---- *)

Lemma later_refl (st : state) : later st st.
Proof. unfold later. lia. Qed.

Lemma later_trans (a b c : state) : later a b -> later b c -> later a c.
Proof. unfold later. lia. Qed.

Lemma print_keeps_later (e : event) : keeps later (print e).
Proof. intros st r st' [= <- <-]. unfold later. cbn. lia. Qed.

Lemma update_keeps_later (f : timer -> timer) : keeps later (update f).
Proof. intros st r st' [= <- <-]. unfold later. cbn. lia. Qed.

Lemma now_keeps_later : keeps later now.
Proof. intros st r st' [= <- <-]. unfold later. cbn. lia. Qed.

Lemma sleep_keeps_later (d : Z) : 0 <= d -> keeps later (sleep d).
Proof.
  intros Hd st r st' [= <- <-]. unfold later. cbn [snd clock time_sleep set_clock].
  lia.
Qed.

Lemma input_keeps_later (prompt : string) : keeps later (input prompt).
Proof.
  intros [t w] r st'.
  destruct (input_cases prompt t w) as [[_ ->] | (a & rest & _ & ->)];
    intros [= <- <-]; unfold later; cbn; lia.
Qed.

Ltac keeping_later :=
  keeping later_refl later_trans
    ltac:(first [ apply print_keeps_later | apply update_keeps_later
                | apply now_keeps_later | apply input_keeps_later
                | apply sleep_keeps_later; lia | assumption ]).

Lemma play_sound_later (sound_type : string) :
  keeps later (play_sound sound_type).
Proof. unfold play_sound, _play_tts, _play_beep. keeping_later. Qed.

Lemma choose_sound_rounds_later (lines : list string) :
  keeps later (choose_sound_rounds lines).
Proof.
  induction lines as [|x lines IH]; cbn [choose_sound_rounds]; keeping_later.
Qed.

Lemma sound_preference_later (t : timer) :
  keeps later match sound_mode t with
              | None => choose_sound_mode
              | Some _ => ret tt
              end.
Proof.
  unfold choose_sound_mode. keeping_later; apply choose_sound_rounds_later.
Qed.

Lemma save_sessions_later : keeps later save_sessions.
Proof.
  intros [t w] r [t' w'] H.
  destruct (save_sessions_cases t w) as (w1 & E & _).
  revert H. unfold save_sessions, open_write, write_text. mrun.
  unfold later. cbn [snd].
  destruct (storage w); mrun; cbn [storage write_file set_files];
    repeat match goal with
           | |- context [match ?x with _ => _ end] => destruct x; mrun
           end;
    intros [= <- <- <-]; cbn; lia.
Qed.

Lemma countdown_loop_later (rounds : nat) (end_time : Z) (w : world) :
  clock w <= clock (countdown_loop rounds end_time w).
Proof.
  revert w; induction rounds as [|k IH]; intros w; cbn [countdown_loop];
    [lia|].
  pose proof (N2Z.is_nonneg (latency w)) as Hlat.
  unfold time_time. cbn [clock set_clock].
  destruct (clock w <? end_time).
  - etransitivity; [|apply IH]. cbn [clock time_sleep emit set_clock]. lia.
  - cbn [clock set_clock]. lia.
Qed.

Lemma countdown_clock (duration : Z) (label : string) (t : timer) (w : world) :
  clock w <= clock (snd (snd (countdown duration label (t, w))))
  /\ clock w + duration * 1000000
     <= clock (snd (snd (countdown duration label (t, w)))).
Proof.
  unfold countdown. mrun. unfold time_time. cbn [clock emit].
  set (w0 := set_clock _ _).
  set (end_time := clock w + duration * 1000000).
  pose proof (N2Z.is_nonneg (latency w)) as Hlat.
  pose proof (countdown_loop_later (S (Z.to_nat duration)) end_time w0) as Hm.
  destruct (countdown_loop_lasts (Z.to_nat duration) end_time (clock w) w0)
    as (Hend & _).
  { unfold w0, end_time. cbn [clock set_clock]. lia. }
  { unfold w0. cbn [clock set_clock]. lia. }
  unfold w0 in Hm at 1. cbn [clock set_clock latency emit] in Hm.
  cbn [snd fst clock emit]. split; lia.
Qed.

(** A countdown, however it is started: it returns [True], prints only its
    heading, ticks and closing line, and ends no earlier than the whole
    duration after it began. *)
Lemma countdown_run (duration : Z) (label : string) (t : timer) (w : world)
  (r : result bool) (t' : timer) (w' : world) :
  countdown duration label (t, w) = (r, (t', w')) ->
  r = Ok true /\ t' = t /\ steady (t, w) (t, w')
  /\ clock w <= clock w' /\ clock w + duration * 1000000 <= clock w'
  /\ exists ticks,
       trace w' = trace w ++ OutCountdown label (duration / 60) :: ticks
                                ++ [OutCountdownDone label]
       /\ Forall (fun e => tick e = true) ticks.
Proof.
  intros H. pose proof (countdown_clock duration label t w) as Hc.
  rewrite H in Hc. cbn [snd] in Hc.
  destruct (countdown_runs duration label t w) as (w1 & ticks & E & S1 & T & F).
  rewrite E in H. injection H as <- <- <-.
  split; [reflexivity|]. split; [reflexivity|]. split; [exact S1|].
  split; [apply Hc|]. split; [apply Hc|]. now exists ticks.
Qed.

Lemma play_sound_run (sound_type : string) (t : timer) (w : world)
  (r : result unit) (t' : timer) (w' : world) :
  play_sound sound_type (t, w) = (r, (t', w')) ->
  r = Ok tt /\ talks sound (t, w) (t', w') /\ clock w <= clock w'.
Proof.
  intros H. pose proof (play_sound_later sound_type _ _ _ H) as Hl.
  destruct (play_sound_talks sound_type t w) as (t1 & w1 & E & T).
  rewrite E in H. injection H as <- <- <-. auto.
Qed.

Lemma sound_preference_run (t : timer) (w : world)
  (r : result unit) (t' : timer) (w' : world) :
  match sound_mode t with
  | None => choose_sound_mode
  | Some _ => ret tt
  end (t, w) = (r, (t', w')) ->
  talks dialogue (t, w) (t', w') /\ clock w <= clock w'.
Proof.
  intros H. split; [exact (proj1 (sound_preference_talks _ _ _ _ H))|].
  exact (sound_preference_later t _ _ _ H).
Qed.

(* ---- the letter that starts the break ---- *)

Lemma lower_char_y (c : ascii) :
  lower_char c = "y"%char -> c = "y"%char \/ c = "Y"%char.
Proof.
  destruct c as [[] [] [] [] [] [] [] []]; vm_compute; intros H;
    try discriminate; auto.
Qed.

Lemma lower_y (a : string) : lower a = "y" <-> a = "y" \/ a = "Y".
Proof.
  split.
  - destruct a as [|c [|c' rest]]; cbn [lower]; try discriminate.
    intros [= H]. destruct (lower_char_y c H) as [-> | ->]; auto.
  - intros [-> | ->]; reflexivity.
Qed.

(* ---- the two halves of a session ---- *)

(** From the sound preference to the completion sound. *)
Lemma work_account (task : string) (t : timer) (w : world)
  (t1 : timer) (w1 : world) (t2 : timer) (w2 w3 : world)
  (t4 : timer) (w4 : world) :
  match sound_mode t with
  | None => choose_sound_mode
  | Some _ => ret tt
  end (t, w) = (Ok tt, (t1, w1)) ->
  play_sound "start" (t1, emit (OutStarting task) w1) = (Ok tt, (t2, w2)) ->
  countdown (work_duration t2) "Work Session" (t2, w2) = (Ok true, (t2, w3)) ->
  play_sound "complete" (t2, w3) = (Ok tt, (t4, w4)) ->
  steady (t, w) (t4, w4)
  /\ clock w <= clock w4
  /\ clock w + work_duration t * 1000000 <= clock w4
  /\ exists before chime,
       trace w4 = trace w ++ before ++ work_done :: chime
       /\ Forall (fun e => opening e = true) before
       /\ Forall (fun e => sound e = true) chime.
Proof.
  intros E1 E2 E3 E4.
  apply sound_preference_run in E1 as ((S1 & n1 & T1 & F1) & C1).
  apply play_sound_run in E2 as (_ & (S2 & n2 & T2 & F2) & C2).
  apply countdown_run in E3 as (_ & _ & S3 & C3 & C3' & ticks & T3 & F3).
  apply play_sound_run in E4 as (_ & (S4 & chime & T4 & F4) & C4).
  assert (S02 : steady (t, w) (t2, w2)).
  { eapply steady_trans; [exact S1|].
    eapply steady_trans; [|exact S2]. repeat split. }
  assert (Hd : work_duration t2 = work_duration t).
  { destruct S02 as ((_ & Hd & _) & _). cbn [fst] in Hd. congruence. }
  cbn [fst snd clock trace emit] in *.
  split; [eapply steady_trans; [exact S02|];
          eapply steady_trans; [exact S3 | exact S4]|].
  split; [lia|]. split; [lia|].
  exists (n1 ++ OutStarting task :: n2
            ++ OutCountdown "Work Session" (work_duration t2 / 60) :: ticks),
    chime.
  split; [|split; [|exact F4]].
  - rewrite T4, T3, T2, T1. unfold work_done.
    repeat (rewrite <- ?app_assoc; cbn [List.app]). reflexivity.
  - apply Forall_app. split.
    + eapply Forall_impl; [apply opening_of_dialogue | exact F1].
    + constructor; [reflexivity|]. apply Forall_app. split.
      * eapply Forall_impl; [apply opening_of_sound | exact F2].
      * constructor; [reflexivity|].
        eapply Forall_impl; [apply opening_of_tick | exact F3].
Qed.

(** The break, from its countdown to the closing line. *)
Lemma break_account (t : timer) (w w9 : world) (t10 : timer) (w10 : world) :
  countdown (break_duration t) "Break Time" (t, w) = (Ok true, (t, w9)) ->
  play_sound "break_end" (t, w9) = (Ok tt, (t10, w10)) ->
  steady (t, w) (t10, w10)
  /\ clock w <= clock w10
  /\ clock w + break_duration t * 1000000 <= clock w10
  /\ exists ticks chime,
       trace (emit OutReady w10)
       = trace w ++ OutCountdown "Break Time" (break_duration t / 60)
                    :: ticks ++ OutCountdownDone "Break Time"
                    :: chime ++ [OutReady]
       /\ Forall (fun e => tick e = true) ticks
       /\ Forall (fun e => sound e = true) chime.
Proof.
  intros E1 E2.
  apply countdown_run in E1 as (_ & _ & S1 & C1 & C1' & ticks & T1 & F1).
  apply play_sound_run in E2 as (_ & (S2 & chime & T2 & F2) & C2).
  cbn [fst snd clock trace emit] in *.
  split; [eapply steady_trans; eassumption|]. split; [lia|]. split; [lia|].
  exists ticks, chime. split; [|split; assumption].
  rewrite T2, T1. repeat (rewrite <- ?app_assoc; cbn [List.app]). reflexivity.
Qed.

Lemma save_sessions_run (t : timer) (w : world) (r : result unit)
  (t' : timer) (w' : world) :
  save_sessions (t, w) = (r, (t', w')) ->
  t' = t /\ trace w' = trace w /\ wall_reads w' = wall_reads w
  /\ clock w <= clock w'
  /\ (r = Raise OSError -> storage w = Denied -> files w' = files w)
  /\ (r = Ok tt ->
      files w' (data_file t) = Some (Json.dumps (sessions t))).
Proof.
  intros H. pose proof (save_sessions_later _ _ _ H) as Hc.
  destruct (save_sessions_cases t w)
    as (w1 & E & T & _ & _ & Wr & _ & Hok & Hden).
  cbv zeta in E, Hok. rewrite E in H. injection H as <- <- <-.
  unfold later in Hc. cbn [snd] in Hc.
  repeat (split; [assumption || reflexivity|]). split.
  - intros _ Hd. now rewrite (Hden Hd).
  - destruct (write_fails _ _); [discriminate|]. intros _.
    rewrite (Hok eq_refl). now rewrite String.eqb_refl.
Qed.


(** X9. A session takes its time.  The clock never goes back during
    [start_session]; the log changes only when the clock has advanced by
    the whole work duration; and a run that ends normally on the closing
    line of the break has lasted the work and the break durations
    together. *)
Theorem session_takes_its_time
  (task : string) (t : timer) (w : world)
  (r : result unit) (t' : timer) (w' : world) :
  start_session task (t, w) = (r, (t', w')) ->
  clock w <= clock w'
  /\ (sessions t' <> sessions t ->
      clock w + work_duration t * 1000000 <= clock w')
  /\ (forall shown, r = Ok tt -> trace w' = shown ++ [OutReady] ->
        clock w + (work_duration t + break_duration t) * 1000000
        <= clock w').
Proof.
  intros Hrun.
  apply start_session_steps in Hrun
    as (r1 & t1 & w1 & E1
        & [(-> & -> & [= -> ->])
          | (-> & t2 & w2 & w3 & t4 & w4 & E2 & E3 & E4 & Hend)]).
  { apply sound_preference_run in E1 as (((_ & Hs & _) & _) & Hc).
    cbn [fst snd] in *. split; [exact Hc|]. split; [congruence|].
    intros shown [=]. }
  destruct (work_account task t w t1 w1 t2 w2 w3 t4 w4 E1 E2 E3 E4)
    as ((Hset & Hs & _) & Hc0 & Hc & _).
  destruct Hset as (_ & _ & Hb & _). cbn [fst snd] in Hs, Hb.
  cbv zeta in Hend.
  destruct Hend as [(_ & -> & [= -> ->]) | (l & r6 & w6 & Hl & E6 & Hsave)].
  { cbn [clock tick_wall]. split; [lia|]. split; [intros _; exact Hc|].
    intros shown [=]. }
  apply save_sessions_run in E6 as (_ & _ & _ & C6 & _).
  cbn [clock tick_wall] in C6.
  destruct Hsave as [(_ & -> & [= -> ->]) | (_ & Hprompt)].
  { split; [lia|]. split; [intros _; lia|]. intros shown [=]. }
  cbv zeta in Hprompt.
  destruct Hprompt as [(_ & -> & [= -> ->])
                      | (a & rest & _ & -> & Hbreak)].
  { cbn [clock emit]. split; [lia|]. split; [intros _; lia|].
    intros shown [=]. }
  destruct Hbreak as [(_ & [= -> ->])
                     | (_ & w9 & t10 & w10 & E9 & E10 & [= -> ->])].
  { cbn [clock emit set_stdin]. split; [lia|]. split; [intros _; lia|].
    intros shown _ Htr. cbn [trace emit set_stdin] in Htr.
    apply app_inj_tail in Htr as [_ [=]]. }
  destruct (break_account _ _ _ _ _ E9 E10) as (_ & C10' & C10 & _).
  cbn [clock emit set_stdin break_duration set_sessions] in *.
  split; [lia|]. split; [intros _; lia|]. intros shown _ _. lia.
Qed.

(** X10. The break is taken exactly on the answer [y] or [Y].  In a run
    of [start_session] that ends normally, the completion line and the
    break prompt are followed by one answer; with any other answer than
    these two nothing more is printed; with one of them the break
    countdown of the break duration follows, then the sound of its end and
    the closing line. *)
Theorem break_follows_yes
  (task : string) (t : timer) (w : world) (t' : timer) (w' : world) :
  start_session task (t, w) = (Ok tt, (t', w')) ->
  exists shown a rest,
    trace w' = trace w ++ shown
                 ++ OutCompleted task
                 :: Ask "Take a 5-minute break? (y/n): " :: Answer a :: rest
    /\ ((a <> "y" /\ a <> "Y" /\ rest = [])
        \/ ((a = "y" \/ a = "Y")
            /\ exists ticks chime,
                 rest = OutCountdown "Break Time" (break_duration t / 60)
                        :: ticks ++ OutCountdownDone "Break Time"
                        :: chime ++ [OutReady]
                 /\ Forall (fun e => tick e = true) ticks
                 /\ Forall (fun e => sound e = true) chime)).
Proof.
  intros Hrun.
  apply start_session_steps in Hrun
    as (r1 & t1 & w1 & E1
        & [(_ & [=] & _)
          | (-> & t2 & w2 & w3 & t4 & w4 & E2 & E3 & E4 & Hend)]).
  destruct (work_account task t w t1 w1 t2 w2 w3 t4 w4 E1 E2 E3 E4)
    as ((Hset & _) & _ & _ & before & chime & T & _).
  destruct Hset as (_ & _ & Hb & _). cbn [fst snd] in Hb.
  cbv zeta in Hend.
  destruct Hend as [(_ & [=] & _) | (l & r6 & w6 & Hl & E6 & Hsave)].
  apply save_sessions_run in E6 as (_ & T6 & _).
  cbn [trace tick_wall] in T6.
  destruct Hsave as [(_ & [=] & _) | (_ & Hprompt)].
  cbv zeta in Hprompt.
  destruct Hprompt as [(_ & [=] & _) | (a & rest & _ & _ & Hbreak)].
  exists (before ++ work_done :: chime), a.
  destruct Hbreak as [(Hy & [= -> ->])
                     | (Hy & w9 & t10 & w10 & E9 & E10 & [= -> ->])].
  - exists []. split.
    + cbn [trace emit set_stdin]. rewrite T6, T.
      repeat (rewrite <- ?app_assoc; cbn [List.app]). reflexivity.
    + left. apply String.eqb_neq in Hy.
      pose proof (proj2 (lower_y a)) as Hl'.
      repeat split; auto.
  - destruct (break_account _ _ _ _ _ E9 E10)
      as (_ & _ & _ & ticks & chime' & T10 & Ft & Fc).
    cbn [break_duration set_sessions] in T10. rewrite <- Hb in T10.
    eexists. split.
    + rewrite T10. cbn [trace emit set_stdin]. rewrite T6, T.
      repeat (rewrite <- ?app_assoc; cbn [List.app]). reflexivity.
    + right. apply String.eqb_eq in Hy.
      split; [now apply lower_y|]. now exists ticks, chime'.
Qed.

(** ** From one launch to the next *)

Section Reload.
Import Json.

(* ---- what the reader of the data file returns ---- *)

Lemma distinct_keys_all (l : list value) :
  distinct_keys (VList l) <-> Forall distinct_keys l.
Proof.
  induction l as [|x l IH]; [split; [constructor | exact (fun _ => I)]|].
  rewrite distinct_keys_list, IH. split.
  - intros [Hx Hl]. now constructor.
  - intros H. inversion H. now split.
Qed.

Lemma distinct_keys_members (d : list (string * value)) :
  distinct_keys (VDict d)
  <-> NoDup (map fst d) /\ Forall (fun kx => distinct_keys (snd kx)) d.
Proof.
  cbn [distinct_keys]. apply and_iff_compat_l.
  induction d as [|kx d IH]; [split; [constructor | exact (fun _ => I)]|].
  rewrite IH. split.
  - intros [Hx Hd]. now constructor.
  - intros H. inversion H. now split.
Qed.

Lemma distinct_keys_app (a b : list value) :
  distinct_keys (VList a) -> distinct_keys (VList b) ->
  distinct_keys (VList (a ++ b)).
Proof.
  rewrite !distinct_keys_all. intros Ha Hb. apply Forall_app. now split.
Qed.

Lemma dict_set_keys (d : list (string * value)) (k : string) (v : value) :
  forall x, In x (map fst (dict_set d k v)) <-> In x (map fst d) \/ x = k.
Proof.
  induction d as [|[k' v'] d IH]; intros x; cbn [dict_set map fst In].
  - intuition congruence.
  - destruct (String.eqb_spec k' k) as [->|Hne]; cbn [map fst In].
    + intuition congruence.
    + rewrite IH. tauto.
Qed.

Lemma dict_set_distinct (d : list (string * value)) (k : string) (v : value) :
  NoDup (map fst d) -> NoDup (map fst (dict_set d k v)).
Proof.
  induction d as [|[k' v'] d IH]; cbn [dict_set map fst].
  - intros _. repeat constructor. intros [].
  - intros Hnd. apply NoDup_cons_iff in Hnd as [Hk Hd].
    destruct (String.eqb_spec k' k) as [->|Hne]; cbn [map fst].
    + now constructor.
    + constructor; [|now apply IH].
      rewrite dict_set_keys. intros [H | ->]; [now apply Hk | now apply Hne].
Qed.

Lemma dict_set_values (P : value -> Prop) (d : list (string * value))
  (k : string) (v : value) :
  P v -> Forall (fun kx => P (snd kx)) d ->
  Forall (fun kx => P (snd kx)) (dict_set d k v).
Proof.
  intros Hv. induction 1 as [|[k' v'] d Hx Hd IH]; cbn [dict_set].
  - now repeat constructor.
  - destruct (k' =? k)%string; constructor; auto.
Qed.

Lemma dict_of_pairs_object (l : list (string * value)) :
  Forall (fun kx => distinct_keys (snd kx)) l ->
  distinct_keys (VDict (dict_of_pairs l)).
Proof.
  intros Hl. apply distinct_keys_members. unfold dict_of_pairs.
  enough (H : forall acc,
             NoDup (map fst acc) /\ Forall (fun kx => distinct_keys (snd kx)) acc ->
             let d := fold_left (fun d kv => dict_set d (fst kv) (snd kv)) l acc in
             NoDup (map fst d) /\ Forall (fun kx => distinct_keys (snd kx)) d).
  { apply (H []). split; constructor. }
  induction Hl as [|[k v] l Hv Hl IH]; intros acc [Hn Hf]; cbn [fold_left].
  - now split.
  - apply IH. split.
    + now apply dict_set_distinct.
    + now apply dict_set_values.
Qed.

Ltac scan_skip r :=
  destruct (skip_ws r) eqn:?; [discriminate|].

(** Whatever the scanners read has distinct keys in every object. *)
Lemma scan_objects (fuel : nat) :
  (forall s v r, scan_value fuel s = Scanned v r -> distinct_keys v)
  /\ (forall s l r, scan_elems fuel s = Scanned l r -> Forall distinct_keys l)
  /\ (forall s l r, scan_members fuel s = Scanned l r ->
                    Forall (fun kx => distinct_keys (snd kx)) l).
Proof.
  induction fuel as [|f (IHv & IHe & IHm)];
    [repeat split; intros; discriminate|].
  split; [|split].
  - intros [|c s] v r; cbn [scan_value]; [discriminate|].
    destruct (Ascii.eqb c dquote).
    { intros H. apply scan_map_scanned in H as (k & _ & ->). exact I. }
    destruct (Ascii.eqb c "[").
    { scan_skip s. destruct (Ascii.eqb _ "]").
      - intros [= <- _]. exact I.
      - intros H. apply scan_map_scanned in H as (l & H & ->).
        apply distinct_keys_all. now apply IHe in H. }
    destruct (Ascii.eqb c "{").
    { scan_skip s. destruct (Ascii.eqb _ "}").
      - intros [= <- _]. cbn. split; [constructor | exact I].
      - intros H. apply scan_map_scanned in H as (l & H & ->).
        apply dict_of_pairs_object. now apply IHm in H. }
    unfold scan_literal.
    destruct (Ascii.eqb c "n").
    { destruct (strip_prefix _ _); [|discriminate]. intros [= <- _]. exact I. }
    destruct (Ascii.eqb c "t").
    { destruct (strip_prefix _ _); [|discriminate]. intros [= <- _]. exact I. }
    destruct (Ascii.eqb c "f").
    { destruct (strip_prefix _ _); [|discriminate]. intros [= <- _]. exact I. }
    intros H. apply scan_map_scanned in H as (n & _ & ->). exact I.
  - intros s l r; cbn [scan_elems].
    destruct (scan_value f s) as [v r0| |] eqn:Ev; try discriminate.
    apply IHv in Ev. scan_skip r0.
    destruct (Ascii.eqb _ "]"); [intros [= <- _]; now repeat constructor|].
    destruct (Ascii.eqb _ ","); [|discriminate].
    intros H. apply scan_map_scanned in H as (l' & H & ->).
    constructor; [exact Ev | now apply IHe in H].
  - intros [|c s] l r; cbn [scan_members]; [discriminate|].
    destruct (Ascii.eqb c dquote); [|discriminate].
    destruct (scan_string s) as [k r1| |] eqn:Ek; try discriminate.
    scan_skip r1. destruct (Ascii.eqb _ ":"); [|discriminate].
    destruct (scan_value f (skip_ws _)) as [v r3| |] eqn:Ev; try discriminate.
    apply IHv in Ev. scan_skip r3.
    destruct (Ascii.eqb _ "}"); [intros [= <- _]; now repeat constructor|].
    destruct (Ascii.eqb _ ","); [|discriminate].
    intros Hm. apply scan_map_scanned in Hm as (l' & Hm & ->).
    constructor; [exact Ev | now apply IHm in Hm].
Qed.

Lemma loads_objects (text : string) (v : value) :
  loads text = Some v -> distinct_keys v.
Proof.
  unfold loads.
  destruct (scan_value _ _) as [v' r| |] eqn:E; try discriminate.
  destruct (skip_ws r); [|discriminate]. intros [= <-].
  exact (proj1 (scan_objects _) _ _ _ E).
Qed.

(* ---- building the timer ---- *)

Lemma init_objects (path : string) (w : world) :
  exists v,
    __init__ path w
    = (Ok tt, ({| data_file := path; work_duration := 25 * 60;
                  break_duration := 5 * 60; sessions := v;
                  sound_mode := None; tts_engine := false |}, w))
    /\ distinct_keys v.
Proof.
  unfold __init__, load_sessions, path_exists, read_text, try_except, json_load.
  mrun. cbn [data_file].
  destruct (files w path) as [text|] eqn:Ef; mrun;
    [|eexists; split; [reflexivity | exact I]].
  rewrite Ef. destruct (Json.loads text) as [v|] eqn:El;
    eexists; (split; [reflexivity|]); [|exact I].
  exact (loads_objects _ _ El).
Qed.

Lemma init_reads (path : string) (w : world) (v : value) :
  files w path = Some (Json.dumps v) -> distinct_keys v ->
  __init__ path w
  = (Ok tt, ({| data_file := path; work_duration := 25 * 60;
                break_duration := 5 * 60; sessions := v;
                sound_mode := None; tts_engine := false |}, w)).
Proof.
  intros Hf Hk.
  unfold __init__, load_sessions, path_exists, read_text, try_except, json_load.
  mrun. cbn [data_file]. rewrite Hf. mrun. rewrite Hf.
  rewrite loads_dumps by exact Hk. reflexivity.
Qed.


Lemma new_record_object (task : string) (d1 d2 : datetime) (seconds : Z) :
  distinct_keys (new_record task d1 d2 seconds).
Proof.
  cbn. split; [|tauto].
  repeat (constructor; [cbn; intuition discriminate|]). constructor.
Qed.

(** A [start] command that ends normally, and the launch after it. *)
Lemma start_run_reloads
  (prog command word : string) (words : list string)
  (w : world) (t' : timer) (w' : world) :
  lower command = "start" ->
  main (prog :: command :: word :: words) w = (Ok tt, (t', w')) ->
  exists old d1 d2,
    let record := new_record (join " " (word :: words)) d1 d2 (25 * 60) in
    sessions (fst (snd (__init__ "pomodoro_data.json" w))) = VList old
    /\ sessions t' = VList (old ++ [record])
    /\ __init__ "pomodoro_data.json" w'
       = (Ok tt, ({| data_file := "pomodoro_data.json";
                     work_duration := 25 * 60; break_duration := 5 * 60;
                     sessions := VList (old ++ [record]);
                     sound_mode := None; tts_engine := false |}, w')).
Proof.
  intros Hcmd. unfold main.
  destruct (init_objects "pomodoro_data.json" w) as (v & -> & Hk).
  unfold dispatch. rewrite Hcmd. cbn [String.eqb Ascii.eqb Bool.eqb fst snd].
  set (task := join " " (word :: words)).
  set (t := {| data_file := "pomodoro_data.json"; sessions := v |}).
  intros Hrun.
  apply start_session_steps in Hrun
    as (r1 & t1 & w1 & E1
        & [(_ & [=] & _)
          | (-> & t2 & w2 & w3 & t4 & w4 & E2 & E3 & E4 & Hend)]).
  destruct (work_account task t w t1 w1 t2 w2 w3 t4 w4 E1 E2 E3 E4)
    as ((Hset & Hs & _) & _).
  destruct Hset as (Hd & Hwd & _).
  cbn [fst snd t data_file sessions work_duration] in Hd, Hs, Hwd.
  cbv zeta in Hend. rewrite <- Hwd in Hend.
  destruct Hend as [(_ & [=] & _) | (l & r6 & w6 & Hl & E6 & Hsave)].
  apply save_sessions_run in E6 as (_ & _ & _ & _ & _ & Hfile).
  destruct Hsave as [(_ & [=] & _) | (-> & Hprompt)].
  specialize (Hfile eq_refl).
  cbn [data_file sessions set_sessions] in Hfile. rewrite <- Hd in Hfile.
  cbv zeta in Hprompt.
  destruct Hprompt as [(_ & [=] & _) | (a & rest & _ & _ & Hbreak)].
  exists l, (wall w4 (wall_reads w4)), (wall w4 (S (wall_reads w4))).
  cbv zeta. set (record := new_record _ _ _ _) in *.
  assert (Hobj : distinct_keys (VList (l ++ [record]))).
  { apply distinct_keys_app; [rewrite <- Hl, <- Hs; exact Hk|].
    apply distinct_keys_all. constructor; [|constructor].
    apply new_record_object. }
  split; [change (v = VList l); congruence|].
  assert (Hdone : sessions t' = VList (l ++ [record])
                  /\ files w' "pomodoro_data.json"
                     = Some (Json.dumps (VList (l ++ [record])))).
  { destruct Hbreak as [(_ & [= -> ->])
                       | (_ & w9 & t10 & w10 & E9 & E10 & [= -> ->])].
    - split; [reflexivity | exact Hfile].
    - destruct (break_account _ _ _ _ _ E9 E10) as ((_ & Hs' & Hf' & _) & _).
      cbn [fst snd sessions set_sessions files emit set_stdin] in Hs', Hf'.
      cbn [files emit]. rewrite <- Hs', <- Hf'. split; [reflexivity|exact Hfile]. }
  destruct Hdone as [Hmem Hdisk].
  split; [exact Hmem|]. exact (init_reads _ _ _ Hdisk Hobj).
Qed.

(** X12. A session that ends normally survives the restart.  When [main]
    returns from a [start] command without an exception, the log it
    loaded was a list, the log in memory is that list with one record
    more, carrying the task joined from the arguments, and building the
    timer again from the files the run left gives exactly the log in
    memory. *)
Theorem session_survives_restart
  (prog command word : string) (words : list string)
  (w : world) (t' : timer) (w' : world) :
  lower command = "start" ->
  main (prog :: command :: word :: words) w = (Ok tt, (t', w')) ->
  exists old record,
    sessions (fst (snd (__init__ "pomodoro_data.json" w))) = VList old
    /\ sessions t' = VList (old ++ [record])
    /\ getitem record "task" = Ok (VStr (join " " (word :: words)))
    /\ exists t'',
         __init__ "pomodoro_data.json" w' = (Ok tt, (t'', w'))
         /\ sessions t'' = sessions t'.
Proof.
  intros Hcmd Hrun.
  destruct (start_run_reloads prog command word words w t' w' Hcmd Hrun)
    as (old & d1 & d2 & Hold & Hmem & Hinit).
  exists old. eexists. split; [exact Hold|]. split; [exact Hmem|].
  split; [reflexivity|]. eexists. split; [exact Hinit|].
  cbn [sessions]. now rewrite Hmem.
Qed.

End Reload.

(** ** The views on any log *)

(* ---- the exceptions of a command ---- *)

Section Raising.

Context {allowed : exn -> Prop}.









End Raising.


(* ---- the look-ups of the views ---- *)






















(* ---- the command word ---- *)

Lemma lower_char_twice (c : ascii) : lower_char (lower_char c) = lower_char c.
Proof. destruct c as [[] [] [] [] [] [] [] []]; vm_compute; reflexivity. Qed.

Lemma lower_twice (s : string) : lower (lower s) = lower s.
Proof.
  induction s as [|c s IH]; cbn [lower]; [reflexivity|].
  now rewrite lower_char_twice, IH.
Qed.

(** X14. The command word is read without regard to letter case: [main]
    does the same, to the last printed line, on a command and on its
    lower-case form, whatever the other arguments and the environment. *)
Theorem commands_ignore_case
  (prog command : string) (rest : list string) (w : world) :
  main (prog :: command :: rest) w = main (prog :: lower command :: rest) w.
Proof.
  unfold main. destruct (__init__ "pomodoro_data.json" w) as [[[]|e] st];
    [|reflexivity].
  unfold dispatch. now rewrite lower_twice.
Qed.

(* ---- what is printed stays printed ---- *)

Lemma grows_refl (st : state) : grows st st.
Proof. exists []. now rewrite app_nil_r. Qed.

Lemma grows_trans (a b c : state) : grows a b -> grows b c -> grows a c.
Proof.
  intros [n1 H1] [n2 H2]. exists (n1 ++ n2). now rewrite H2, H1, app_assoc.
Qed.

Lemma print_keeps_grows (e : event) : keeps grows (print e).
Proof. intros st r st' [= <- <-]. now exists [e]. Qed.

Ltac keeping_grows :=
  keeping grows_refl grows_trans ltac:(apply print_keeps_grows).

(* ---- the last record in the history ---- *)

Lemma slice_keeps_last {A} (limit : Z) (l : list A) (x : A) :
  1 <= limit ->
  exists front, slice_from (- limit) (l ++ [x]) = front ++ [x].
Proof.
  intros Hl. unfold slice_from. rewrite length_app. cbn [List.length].
  destruct (Z.ltb_spec (- limit) 0) as [_|]; [|lia].
  set (i := Z.to_nat (Z.max (- limit + Z.of_nat (List.length l + 1)) 0)).
  assert (Hi : (i <= List.length l)%nat) by (unfold i; lia).
  rewrite skipn_app. replace (i - List.length l)%nat with 0%nat by lia.
  cbn [skipn]. now exists (skipn i l).
Qed.

Lemma history_item_keeps_grows (item : Z * value) :
  keeps grows
    (let (i, session) := item in
     task <- lift (getitem session "task") ;;
     print (OutItem i task) ;;;
     date <- lift (getitem session "date") ;;
     time <- lift (getitem session "time") ;;
     duration <- lift (getitem session "duration") ;;
     print (OutHistoryDetail date time duration)).
Proof. keeping_grows. Qed.

Lemma history_item_keeps_view (item : Z * value) :
  keeps view_frame
    (let (i, session) := item in
     task <- lift (getitem session "task") ;;
     print (OutItem i task) ;;;
     date <- lift (getitem session "date") ;;
     time <- lift (getitem session "time") ;;
     duration <- lift (getitem session "duration") ;;
     print (OutHistoryDetail date time duration)).
Proof. keeping_view. Qed.

(** The history of a log that ends with a record of [start_session]: the
    heading, then that record as item 1. *)
Lemma show_history_head (old : list value) (task : string)
  (d1 d2 : datetime) (seconds limit : Z) (t : timer) (w : world) :
  1 <= limit ->
  sessions t = VList (old ++ [new_record task d1 d2 seconds]) ->
  exists r w' rest,
    show_history limit (t, w) = (r, (t, w'))
    /\ trace w' = trace w ++ OutHistoryHeader limit
                     :: OutItem 1 (VStr task)
                     :: OutHistoryDetail (VStr (format_date d1))
                          (VStr (format_time d2)) (VInt (seconds / 60))
                     :: rest.
Proof.
  intros Hlimit Hs. unfold show_history. mrun. rewrite Hs.
  replace (truthy (VList (old ++ [new_record task d1 d2 seconds]))) with true
    by (destruct old; reflexivity).
  cbn [negb]. unfold recent, sequence_items. cbn [rbind].
  destruct (slice_keeps_last limit old (new_record task d1 d2 seconds) Hlimit)
    as (front & ->).
  rewrite rev_app_distr. cbn [List.rev List.app enumerate for_each].
  mrun. cbn [getitem new_record dict_get String.eqb Ascii.eqb Bool.eqb].
  mrun.
  set (body := fun item : Z * value => _).
  set (st2 := (t, _)).
  destruct (for_each (enumerate (1 + 1) (List.rev front)) body st2)
    as [r [t' w']] eqn:E.
  pose proof (keeps_for_each grows_refl grows_trans _ body
                (fun x => history_item_keeps_grows x) _ _ _ E) as [rest T].
  pose proof (keeps_for_each view_frame_refl view_frame_trans _ body
                (fun x => history_item_keeps_view x) _ _ _ E) as (Ht & _).
  cbn [fst snd st2 trace emit] in Ht, T. subst t'.
  exists r, w', rest. split; [reflexivity|].
  rewrite T. repeat (rewrite <- ?app_assoc; cbn [List.app]). reflexivity.
Qed.

(** X15. The session just finished heads the history.  After a [start]
    command that ended normally, the next launch with the [history]
    command prints its heading and then, as item 1, the task of that
    session with its 25 minutes, whatever the older records hold and
    however the listing goes on after it. *)
Theorem finished_session_heads_history
  (prog command word : string) (words : list string) (prog' : string)
  (w : world) (t' : timer) (w' : world) :
  lower command = "start" ->
  main (prog :: command :: word :: words) w = (Ok tt, (t', w')) ->
  exists r t'' w'' date time rest,
    main [prog'; "history"] w' = (r, (t'', w''))
    /\ sessions t'' = sessions t'
    /\ trace w'' = trace w' ++ OutHistoryHeader 10
                      :: OutItem 1 (VStr (join " " (word :: words)))
                      :: OutHistoryDetail (VStr date) (VStr time) (VInt 25)
                      :: rest.
Proof.
  intros Hcmd Hrun.
  destruct (start_run_reloads prog command word words w t' w' Hcmd Hrun)
    as (old & d1 & d2 & _ & Hmem & Hinit).
  cbv zeta in Hmem, Hinit. unfold main. rewrite Hinit.
  set (t'' := {| data_file := "pomodoro_data.json" |}).
  destruct (show_history_head old (join " " (word :: words)) d1 d2 (25 * 60)
              10 t'' w' ltac:(lia) eq_refl) as (r & w'' & rest & E & T).
  exists r, t'', w'', (format_date d1), (format_time d2), rest.
  split; [exact E|]. split; [now rewrite Hmem|]. exact T.
Qed.

(** ** These properties at sample inputs *)

(** The theorems of this part at the sample inputs. *)
Lemma sound_menu_witness :
  let outcome := choose_sound_mode (Sample.novice, Sample.fresh) in
  let r := fst outcome in
  let t' := fst (snd outcome) in
  let w' := snd (snd outcome) in
  sessions t' = sessions Sample.novice /\ files w' = files Sample.fresh
  /\ ((r = Ok tt
       /\ (sound_mode t' = Some "beeps" \/ sound_mode t' = Some "none"
           \/ (sound_mode t' = Some "tts"
               /\ tts_available Sample.fresh = true)))
      \/ (r = Raise EOFError /\ sound_mode t' = sound_mode Sample.novice
          /\ stdin w' = [])).
Proof.
  intros outcome r t' w'.
  apply (choose_sound_mode_result Sample.novice Sample.fresh r t' w').
  vm_compute. reflexivity.
Defined.

Lemma views_only_look_witness :
  let st := (set_sessions
               (log_value [Sample.reading; Sample.writing; Sample.review])
               Sample.novice, Sample.fresh) in
  let st' := snd (show_history 10 st) in
  fst st' = fst st
  /\ files (snd st') = files (snd st)
  /\ storage (snd st') = storage (snd st)
  /\ stdin (snd st') = stdin (snd st)
  /\ clock (snd st') = clock (snd st).
Proof.
  intros st st'.
  apply (views_only_look 10 st (fst (show_history 10 st)) st').
  right. left. vm_compute. reflexivity.
Defined.

Lemma only_start_writes_witness :
  let outcome := main ["pomodoro.py"; "Stats"] Sample.edited in
  files (snd (snd outcome)) = files Sample.edited
  /\ stdin (snd (snd outcome)) = stdin Sample.edited.
Proof.
  intros outcome.
  apply (only_start_writes ["pomodoro.py"; "Stats"] Sample.edited
           (fst outcome) (fst (snd outcome)) (snd (snd outcome))).
  - vm_compute. discriminate.
  - vm_compute. reflexivity.
Defined.

Lemma missing_date_witness :
  show_today (set_sessions (VList [VDict [("task", VStr "essay")]])
                Sample.novice, Sample.fresh)
  = (Raise KeyError,
     (set_sessions (VList [VDict [("task", VStr "essay")]]) Sample.novice,
      tick_wall Sample.fresh)).
Proof.
  apply (show_today_missing_date [VDict [("task", VStr "essay")]]
           Sample.novice Sample.fresh).
  - constructor; [eexists; reflexivity | constructor].
  - constructor. reflexivity.
Defined.

Lemma day_counts_witness :
  let days := [(VStr "2024-01-01", 2); (VStr "2024-01-02", 1)] in
  total_count days = 3
  /\ Forall (fun kn => 1 <= snd kn) days
  /\ (List.length days <= 3)%nat.
Proof.
  intros days.
  apply (day_counts_add_up
           (map to_value [Sample.reading; Sample.writing; Sample.review])
           days).
  reflexivity.
Defined.


Lemma session_time_witness :
  let outcome := start_session "write report" (Sample.novice, Sample.eager) in
  let r := fst outcome in
  let t' := fst (snd outcome) in
  let w' := snd (snd outcome) in
  clock Sample.eager <= clock w'
  /\ (sessions t' <> sessions Sample.novice ->
      clock Sample.eager + work_duration Sample.novice * 1000000 <= clock w')
  /\ (forall shown, r = Ok tt -> trace w' = shown ++ [OutReady] ->
        clock Sample.eager
        + (work_duration Sample.novice + break_duration Sample.novice)
          * 1000000
        <= clock w').
Proof.
  intros outcome r t' w'.
  apply (session_takes_its_time "write report" Sample.novice Sample.eager
           r t' w').
  vm_compute. reflexivity.
Defined.

Lemma break_witness :
  let outcome := start_session "write report" (Sample.novice, Sample.eager) in
  let w' := snd (snd outcome) in
  exists shown a rest,
    trace w' = trace Sample.eager ++ shown
                 ++ OutCompleted "write report"
                 :: Ask "Take a 5-minute break? (y/n): " :: Answer a :: rest
    /\ ((a <> "y" /\ a <> "Y" /\ rest = [])
        \/ ((a = "y" \/ a = "Y")
            /\ exists ticks chime,
                 rest = OutCountdown "Break Time"
                          (break_duration Sample.novice / 60)
                        :: ticks ++ OutCountdownDone "Break Time"
                        :: chime ++ [OutReady]
                 /\ Forall (fun e => tick e = true) ticks
                 /\ Forall (fun e => sound e = true) chime)).
Proof.
  intros outcome w'.
  apply (break_follows_yes "write report" Sample.novice Sample.eager
           (fst (snd outcome)) w').
  vm_compute. reflexivity.
Defined.


Lemma restart_witness :
  let outcome := main Sample.start_command Sample.fresh in
  let t' := fst (snd outcome) in
  let w' := snd (snd outcome) in
  exists old record,
    sessions (fst (snd (__init__ "pomodoro_data.json" Sample.fresh)))
    = VList old
    /\ sessions t' = VList (old ++ [record])
    /\ getitem record "task" = Ok (VStr (join " " ["write"; "report"]))
    /\ exists t'',
         __init__ "pomodoro_data.json" w' = (Ok tt, (t'', w'))
         /\ sessions t'' = sessions t'.
Proof.
  intros outcome t' w'.
  apply (session_survives_restart "pomodoro.py" "start" "write" ["report"]
           Sample.fresh t' w').
  - reflexivity.
  - vm_compute. reflexivity.
Defined.


Lemma history_head_witness :
  let outcome := main Sample.start_command Sample.fresh in
  let t' := fst (snd outcome) in
  let w' := snd (snd outcome) in
  exists r t'' w'' date time rest,
    main ["pomodoro.py"; "history"] w' = (r, (t'', w''))
    /\ sessions t'' = sessions t'
    /\ trace w'' = trace w' ++ OutHistoryHeader 10
                      :: OutItem 1 (VStr (join " " ["write"; "report"]))
                      :: OutHistoryDetail (VStr date) (VStr time) (VInt 25)
                      :: rest.
Proof.
  intros outcome t' w'.
  apply (finished_session_heads_history "pomodoro.py" "start" "write"
           ["report"] "pomodoro.py" Sample.fresh t' w').
  - reflexivity.
  - vm_compute. reflexivity.
Defined.

End Further.
